(** * gin/tf/utils.py: [singleton_per_graph] and [GinConfigSaverHook]

    A shallow embedding of the two units of [gin/tf/utils.py]:

    - [Singleton.singleton_per_graph], the per-(scope, graph) memoizer;
    - [Hook.after_create_session], the session hook that writes Gin's
      operative configuration to a file and, optionally, to a summary
      writer.

    Python code is embedded in a state-and-exception monad: a computation
    takes the store and returns an outcome (a value or a raised exception)
    together with the store at the point where it stopped, so the effects
    performed before an exception stay visible. *)

From stdpp Require Import gmap strings list fin_maps pretty relations.
From Stdlib Require Import ZArith Ascii.

Open Scope Z_scope.

(** ** The monad of Python computations *)

Inductive outcome (E A : Type) : Type :=
| Ok (a : A)
| Raise (e : E).
Arguments Ok {E A} a.
Arguments Raise {E A} e.

Definition M (S E A : Type) : Type := S -> outcome E A * S.

Definition ret {S E A} (a : A) : M S E A := fun w => (Ok a, w).

Definition bind {S E A B} (m : M S E A) (k : A -> M S E B) : M S E B :=
  fun w =>
    match m w with
    | (Ok a, w') => k a w'
    | (Raise e, w') => (Raise e, w')
    end.

Definition gets {S E A} (f : S -> A) : M S E A := fun w => (Ok (f w), w).

Definition modify {S E} (f : S -> S) : M S E unit := fun w => (Ok tt, f w).

(** [finally_ m c]: run [m], then [c] whatever the outcome of [m] (the exit
    of a [with] block). An exception of [c] replaces the one of [m]. *)
Definition finally_ {S E A} (m : M S E A) (c : M S E unit) : M S E A :=
  fun w =>
    match m w with
    | (r, w') =>
        match c w' with
        | (Ok _, w'') => (r, w'')
        | (Raise e, w'') => (Raise e, w'')
        end
    end.

(** stdpp's monad notations: [x ← m; k] and [m;; k]. *)
#[global] Instance M_ret {S E} : MRet (M S E) := fun A => @ret S E A.
#[global] Instance M_bind {S E} : MBind (M S E) :=
  fun A B k m => @bind S E A B m k.

(** ** Part 1: [singleton_per_graph] *)

Module Singleton.

(** Graphs and Python objects are opaque handles: only their identity is
    observed. *)
Definition graph := nat.
Definition obj := nat.
Abbreviation key := (string * graph)%type.

Inductive exn := ConstructorError (code : nat).

(** The Python heap, as far as the memoizer sees it: the set of live
    objects. A zero-argument callable runs on the heap and returns an
    object or raises; it does not reach into Gin's registry. *)
Definition callable := M (gset obj) exn obj.

Record World := mkWorld {
  _SINGLETONS : gmap key obj;       (* gin.config._SINGLETONS *)
  scope : string;                   (* read by config.current_scope_str() *)
  default_graph : graph;            (* read by get_default_graph() *)
  heap : gset obj;
  invocations : nat                 (* ghost: constructor calls so far *)
}.

Definition set_SINGLETONS (f : gmap key obj -> gmap key obj) (w : World) :=
  mkWorld (f (_SINGLETONS w)) (scope w) (default_graph w) (heap w)
    (invocations w).
Definition set_scope (s : string) (w : World) :=
  mkWorld (_SINGLETONS w) s (default_graph w) (heap w) (invocations w).
Definition set_default_graph (g : graph) (w : World) :=
  mkWorld (_SINGLETONS w) (scope w) g (heap w) (invocations w).
Definition set_heap (h : gset obj) (w : World) :=
  mkWorld (_SINGLETONS w) (scope w) (default_graph w) h (invocations w).

Definition current_scope_str : M World exn string := gets scope.
Definition get_default_graph : M World exn graph := gets default_graph.

(** Calling a Python callable: it runs on the heap; the call is counted. *)
Definition call (c : callable) : M World exn obj :=
  fun w =>
    match c (heap w) with
    | (r, h') =>
        (r, mkWorld (_SINGLETONS w) (scope w) (default_graph w) h'
              (S (invocations w)))
    end.

(** Modelled from the spec: [config.singleton_value] of [gin/config.py],
    which is not among the sources. "First call for a given key invokes the
    constructor and stores the result in a process-wide registry external to
    this component; subsequent calls with the same key return the stored
    instance without re-invoking the constructor." *)
Definition singleton_value (k : key) (constructor : callable)
  : M World exn obj :=
  found ← gets (fun w => _SINGLETONS w !! k);
  match found with
  | Some v => ret v
  | None =>
      v ← call constructor;
      modify (set_SINGLETONS (insert k v));;
      ret v
  end.

(** [utils.py], lines 34-37. The [@config.configurable] decorator only lets
    Gin supply [constructor] from its bindings; the body runs as written. *)
Definition singleton_per_graph (constructor : callable) : M World exn obj :=
  s ← current_scope_str;
  g ← get_default_graph;
  let key := (s, g) in
  singleton_value key constructor.

(** What can happen between two calls of the helper: other calls of it,
    a change of the configuration scope or of the default graph, and
    allocations (the heap only grows while the registry keeps its
    references). *)
Inductive step : World -> World -> Prop :=
| step_call c w : step w (snd (singleton_per_graph c w))
| step_scope s w : step w (set_scope s w)
| step_graph g w : step w (set_default_graph g w)
| step_alloc h w : (heap w ⊆ h) -> step w (set_heap h w).

(** A constructor in the proper sense: what it returns is a new object. *)
Definition allocates (c : callable) : Prop :=
  forall h v h', c h = (Ok v, h') -> (v ∉ h) /\ (v ∈ h') /\ (h ⊆ h').

(** The usual constructor: allocate the next free reference. *)
Definition new_object : callable :=
  fun h => let v := fresh h in (Ok v, {[v]} ∪ h).

(** A callable that hands out one and the same object at every call. *)
Definition shared_object (v : obj) : callable :=
  fun h => (Ok v, {[v]} ∪ h).

(** A callable that raises. *)
Definition failing : callable := fun h => (Raise (ConstructorError 0), h).

Definition w0 : World := mkWorld ∅ "train" 0%nat ∅ 0.

(** [w0] after a call with [new_object] under graph 0, and after a second
    call under graph 1. *)
Definition w0_graph0 : World :=
  mkWorld (<[("train", 0%nat) := 0%nat]> ∅) "train" 0%nat
    ({[0%nat]} ∪ ∅) 1.
Definition w0_graph1 : World :=
  mkWorld (<[("train", 1%nat) := 1%nat]> (<[("train", 0%nat) := 0%nat]> ∅))
    "train" 1%nat ({[1%nat]} ∪ ({[0%nat]} ∪ ∅)) 2.

(** [w0] after the same two calls with [shared_object 7]. *)
Definition w0_shared0 : World :=
  mkWorld (<[("train", 0%nat) := 7%nat]> ∅) "train" 0%nat
    ({[7%nat]} ∪ ∅) 1.
Definition w0_shared1 : World :=
  mkWorld (<[("train", 1%nat) := 7%nat]> (<[("train", 0%nat) := 7%nat]> ∅))
    "train" 1%nat ({[7%nat]} ∪ ({[7%nat]} ∪ ∅)) 2.

(** [w0_graph0] after a call with [new_object] under the scope "eval". *)
Definition w0_eval : World :=
  mkWorld (<[("eval", 0%nat) := 1%nat]> (<[("train", 0%nat) := 0%nat]> ∅))
    "eval" 0%nat ({[1%nat]} ∪ ({[0%nat]} ∪ ∅)) 2.

End Singleton.

(** ** Part 2: [GinConfigSaverHook] *)

Module Hook.

(** *** Path strings

    [os.path.join] (posixpath) with one component, the '%s' rendering of an
    integer, and the way the file system reads a path string. *)

Definition sep : ascii := "/"%char.

Definition startswith_sep (s : string) : bool :=
  match s with
  | String c _ => Ascii.eqb c sep
  | EmptyString => false
  end.

Fixpoint endswith_sep (s : string) : bool :=
  match s with
  | EmptyString => false
  | String c EmptyString => Ascii.eqb c sep
  | String _ s' => endswith_sep s'
  end.

Definition is_empty (s : string) : bool :=
  match s with
  | EmptyString => true
  | String _ _ => false
  end.

(** posixpath.join(a, b):
      if b.startswith(sep): path = b
      elif not path or path.endswith(sep): path += b
      else: path += sep + b *)
Definition os_path_join (a b : string) : string :=
  if startswith_sep b then b
  else if is_empty a || endswith_sep a then a +:+ b
  else a +:+ "/" +:+ b.

(** What '%s' makes of a Python integer: decimal digits, with a leading
    minus sign. *)
Definition str_int (n : Z) : string := pretty n.

(** A resolved path: its components, innermost first; the root is []. *)
Abbreviation path := (list string).

Fixpoint split_sep (s : string) : list string :=
  match s with
  | EmptyString => [EmptyString]
  | String c s' =>
      if Ascii.eqb c sep then EmptyString :: split_sep s'
      else match split_sep s' with
           | x :: xs => String c x :: xs
           | [] => [String c EmptyString]
           end
  end.

Definition walk (p : path) (c : string) : path :=
  if String.eqb c "" then p
  else if String.eqb c "." then p
  else if String.eqb c ".." then tail p
  else c :: p.

Definition resolve (cwd : path) (s : string) : path :=
  fold_left walk (split_sep s) (if startswith_sep s then [] else cwd).

(** A path with all the directories above it, up to the root. *)
Fixpoint ancestors (p : path) : list path :=
  p :: match p with
       | [] => []
       | _ :: q => ancestors q
       end.

(** *** Data *)

(** The file system as [tf.io.gfile] shows it to this code: directories,
    the files written through [GFile] with their contents, and the handles
    [GFile] holds open. The events files of summary writers are not among
    [files]: they are part of the writers, below. *)
Record FileSystem := mkFS {
  dirs : gset path;
  files : gmap path string;
  open_files : gset path;           (* GFile handles open for writing *)
  cwd : path
}.

Definition tensor := nat.
Record Session := mkSession { variables : gmap tensor Z }.

(** summary_pb2 messages, with the fields this code sets. *)
Record SummaryMetadata := mkSummaryMetadata {
  plugin_name : string;
  content : string
}.
Inductive TensorProto := StringTensor (string_val : string).
Record SummaryValue := mkSummaryValue {
  tag : string;
  tensor_ : TensorProto;
  metadata : option SummaryMetadata    (* [None]: the field is cleared *)
}.
Record Summary := mkSummary { value : list SummaryValue }.

(** Summary writers live on the heap and are shared by reference. A
    [tf.summary.FileWriter] is always truthy; an object passed in its place
    need not be. A writer remembers the tags it has stored metadata for
    ([_seen_summary_tags]). The event stream of a writer, and with it the
    events file the writer creates and keeps open in its [logdir], is kept
    in the writer and apart from the files of [FileSystem], which are the
    files read and written through [tf.io.gfile]. *)
Definition ref := nat.
Inductive pyval := PyNone | PyRef (r : ref).

Record FileWriter := mkFileWriter {
  logdir : string;
  truthy : bool;
  pending : list (Summary * Z);     (* added, not yet flushed *)
  flushed : list (Summary * Z);
  seen_tags : gset string           (* _seen_summary_tags *)
}.

Record GFileObject := mkGFile { name : string; mode : string }.

Record GinConfigSaverHook := mkHook {
  _output_dir : string;
  _base_name : string;
  _summarize_config : bool;
  _summary_writer : pyval;
  _include_step_in_filename : bool
}.

(** [__init__], lines 53-83. Its defaults are base_name='operative_config',
    summarize_config=True, summary_writer=None and
    include_step_in_filename=True. *)
Definition __init__ (output_dir base_name : string) (summarize_config : bool)
    (summary_writer : pyval) (include_step_in_filename : bool)
  : GinConfigSaverHook :=
  mkHook output_dir base_name summarize_config summary_writer
    include_step_in_filename.

(** The calls the hook makes into Gin and TensorFlow. *)
Inductive call :=
| operative_config_str_call
| isdir_call (d : string)
| makedirs_call (d : string)
| get_global_step_call
| session_run_call (t : tensor)
| GFile_call (name mode : string)
| write_call (f : GFileObject) (s : string)
| close_call (f : GFileObject)
| markdown_call (s : string)
| make_tensor_proto_call (s : string)
| FileWriterCache_get_call (d : string)
| add_summary_call (sw : pyval) (summary : Summary) (global_step : Z)
| flush_call (sw : pyval).

(** An exception carries the call that raised it. *)
Inductive exn := Error (c : call).

Record World := mkWorld {
  operative_config : string;        (* Gin's operative configuration *)
  fs : FileSystem;
  global_step : option tensor;      (* the default graph's global step *)
  writers : gmap ref FileWriter;
  writer_cache : gmap string ref;   (* FileWriterCache, keyed by logdir *)
  self : GinConfigSaverHook;
  faults : call -> bool;            (* calls the environment makes fail *)
  log : list (call * bool)          (* ghost: calls made, with success *)
}.

Definition set_fs (f : FileSystem -> FileSystem) (w : World) : World :=
  mkWorld (operative_config w) (f (fs w)) (global_step w) (writers w)
    (writer_cache w) (self w) (faults w) (log w).
Definition set_writers (f : gmap ref FileWriter -> gmap ref FileWriter)
    (w : World) : World :=
  mkWorld (operative_config w) (fs w) (global_step w) (f (writers w))
    (writer_cache w) (self w) (faults w) (log w).
Definition set_writer_cache (f : gmap string ref -> gmap string ref)
    (w : World) : World :=
  mkWorld (operative_config w) (fs w) (global_step w) (writers w)
    (f (writer_cache w)) (self w) (faults w) (log w).
Definition set_self (f : GinConfigSaverHook -> GinConfigSaverHook)
    (w : World) : World :=
  mkWorld (operative_config w) (fs w) (global_step w) (writers w)
    (writer_cache w) (f (self w)) (faults w) (log w).
Definition record (c : call) (ok : bool) (w : World) : World :=
  mkWorld (operative_config w) (fs w) (global_step w) (writers w)
    (writer_cache w) (self w) (faults w) (log w ++ [(c, ok)]).

Definition set_summary_writer (v : pyval) (h : GinConfigSaverHook) :=
  mkHook (_output_dir h) (_base_name h) (_summarize_config h) v
    (_include_step_in_filename h).
Definition set_summarize_config (b : bool) (h : GinConfigSaverHook) :=
  mkHook (_output_dir h) (_base_name h) b (_summary_writer h)
    (_include_step_in_filename h).

Abbreviation Py := (M World exn).

(** A call into a framework. It raises when the environment makes it fail
    or when [body] has no result on the current store; otherwise it has the
    effect and the result of [body]. Either way the call is logged. *)
Definition extern {A} (c : call) (body : World -> option (A * World)) : Py A :=
  fun w =>
    if faults w c then (Raise (Error c), record c false w)
    else match body w with
         | Some (a, w') => (Ok a, record c true w')
         | None => (Raise (Error c), record c false w)
         end.

(** A call that may have changed the store by the time it raises: [body]
    gives the store it leaves behind in both cases. *)
Definition extern_eff {A} (c : call) (body : World -> option A * World)
  : Py A :=
  fun w =>
    if faults w c then (Raise (Error c), record c false w)
    else match body w with
         | (Some a, w') => (Ok a, record c true w')
         | (None, w') => (Raise (Error c), record c false w')
         end.

(** *** The framework calls

    [tf.io.gfile] over a hierarchical file system, the global step, the
    summary writers and their cache. *)

Definition add_dirs (ps : list path) (f : FileSystem) : FileSystem :=
  mkFS (list_to_set ps ∪ dirs f) (files f) (open_files f) (cwd f).

Definition write_file (p : path) (s : string) (f : FileSystem) : FileSystem :=
  mkFS (dirs f) (<[p := s]> (files f)) ({[p]} ∪ open_files f) (cwd f).

Definition close_file (p : path) (f : FileSystem) : FileSystem :=
  mkFS (dirs f) (files f) (open_files f ∖ {[p]}) (cwd f).

(** A file can be created or truncated at [p] when the directory above it
    exists and [p] itself is not a directory. *)
Definition writable (p : path) (f : FileSystem) : bool :=
  match p with
  | [] => false
  | _ :: parent => bool_decide (parent ∈ dirs f) && bool_decide (p ∉ dirs f)
  end.

Definition operative_config_str : Py string :=
  extern operative_config_str_call (fun w => Some (operative_config w, w)).

(** [tf.io.gfile.isdir]: the empty path is no directory. *)
Definition is_directory (d : string) (f : FileSystem) : bool :=
  negb (is_empty d) && bool_decide (resolve (cwd f) d ∈ dirs f).

Definition isdir (d : string) : Py bool :=
  extern (isdir_call d) (fun w => Some (is_directory d (fs w), w)).

(** Creates the directory and those above it; a regular file in the way
    is an error, an existing directory is not. The empty path stands for
    the working directory: there is nothing to create when that exists. *)
Definition makedirs (d : string) : Py unit :=
  extern (makedirs_call d)
    (fun w =>
       let p := resolve (cwd (fs w)) d in
       if forallb (fun q => bool_decide (files (fs w) !! q = None))
            (ancestors p)
       then Some (tt, set_fs (add_dirs (ancestors p)) w)
       else None).

Definition get_global_step : Py (option tensor) :=
  extern get_global_step_call (fun w => Some (global_step w, w)).

(** Evaluating a variable the session has not initialised raises. *)
Definition session_run (sess : Session) (t : tensor) : Py Z :=
  extern (session_run_call t)
    (fun w =>
       match variables sess !! t with
       | Some v => Some (v, w)
       | None => None
       end).

(** [GFile(name, mode)] only builds the object; the file is created or
    truncated by the first [write] of a handle in mode 'w'. The hook writes
    once to each handle. *)
Definition GFile (name mode : string) : Py GFileObject :=
  extern (GFile_call name mode) (fun w => Some (mkGFile name mode, w)).

Definition write (f : GFileObject) (s : string) : Py unit :=
  extern (write_call f s)
    (fun w =>
       let p := resolve (cwd (fs w)) (name f) in
       if String.eqb (mode f) "w" && writable p (fs w)
       then Some (tt, set_fs (write_file p s) w)
       else None).

Definition close (f : GFileObject) : Py unit :=
  extern (close_call f)
    (fun w =>
       Some (tt, set_fs (close_file (resolve (cwd (fs w)) (name f))) w)).

Definition make_tensor_proto (s : string) : Py TensorProto :=
  extern (make_tensor_proto_call s) (fun w => Some (StringTensor s, w)).

(** FileWriterCache.get(logdir):
      if logdir not in cache: cache[logdir] = FileWriter(logdir, ...)
      return cache[logdir]
    The new writer has no record and has seen no tag. Creating it also
    creates its events file in [logdir], which is part of the writer. *)
Definition FileWriterCache_get (d : string) : Py pyval :=
  extern (FileWriterCache_get_call d)
    (fun w =>
       match writer_cache w !! d with
       | Some r => Some (PyRef r, w)
       | None =>
           let r := fresh (dom (writers w)) in
           Some (PyRef r,
                 set_writer_cache (insert d r)
                   (set_writers (insert r (mkFileWriter d true [] [] ∅)) w))
       end).

Definition add_event (e : Summary * Z) (fw : FileWriter) : FileWriter :=
  mkFileWriter (logdir fw) (truthy fw) (pending fw ++ [e]) (flushed fw)
    (seen_tags fw).

Definition flush_events (fw : FileWriter) : FileWriter :=
  mkFileWriter (logdir fw) (truthy fw) [] (flushed fw ++ pending fw)
    (seen_tags fw).

Definition set_seen_tags (seen : gset string) (fw : FileWriter)
  : FileWriter :=
  mkFileWriter (logdir fw) (truthy fw) (pending fw) (flushed fw) seen.

(** The loop at the head of [FileWriter.add_summary]:
      for value in summary.value:
        if not value.metadata: continue
        if value.tag in self._seen_summary_tags:
          value.ClearField("metadata"); continue
        self._seen_summary_tags.add(value.tag)
    The metadata of a value is stored with the first record of its tag
    only. *)
Definition strip_value (seen : gset string) (v : SummaryValue)
  : SummaryValue * gset string :=
  match metadata v with
  | None => (v, seen)
  | Some _ =>
      if bool_decide (tag v ∈ seen)
      then (mkSummaryValue (tag v) (tensor_ v) None, seen)
      else (v, {[tag v]} ∪ seen)
  end.

Fixpoint strip_values (seen : gset string) (vs : list SummaryValue)
  : list SummaryValue * gset string :=
  match vs with
  | [] => ([], seen)
  | v :: vs' =>
      let (v', seen1) := strip_value seen v in
      let (vs'', seen2) := strip_values seen1 vs' in
      (v' :: vs'', seen2)
  end.

Definition strip_seen (summary : Summary) (seen : gset string)
  : Summary * gset string :=
  let (vs, seen') := strip_values seen (value summary) in
  (mkSummary vs, seen').

(** [event.step = int(global_step)]: the field is an int64. *)
Definition in_int64 (n : Z) : bool :=
  (- 2 ^ 63 <=? n) && (n <? 2 ^ 63).

(** Calling a method on None, or on an object that is gone, raises. *)
Definition on_writer (sw : pyval) (f : FileWriter -> FileWriter) (w : World)
  : option (unit * World) :=
  match sw with
  | PyNone => None
  | PyRef r =>
      match writers w !! r with
      | Some fw => Some (tt, set_writers (insert r (f fw)) w)
      | None => None
      end
  end.

(** The record a writer stores for [summary], and the writer once it has
    been added. *)
Definition stored_record (summary : Summary) (global_step : Z)
    (fw : FileWriter) : Summary * Z :=
  ((strip_seen summary (seen_tags fw)).1, global_step).

Definition writer_after_add (summary : Summary) (global_step : Z)
    (fw : FileWriter) : FileWriter :=
  add_event (stored_record summary global_step fw)
    (set_seen_tags (strip_seen summary (seen_tags fw)).2 fw).

(** [FileWriter.add_summary(summary, global_step)]: the loop over the
    values, then [self._add_event(Event(summary=summary), global_step)],
    which raises ValueError when the step does not fit the int64 field;
    the tags have been noted by then. *)
Definition writer_add_summary (summary : Summary) (global_step : Z)
    (fw : FileWriter) : option unit * FileWriter :=
  if in_int64 global_step
  then (Some tt, writer_after_add summary global_step fw)
  else (None, set_seen_tags (strip_seen summary (seen_tags fw)).2 fw).

Definition on_writer_eff (sw : pyval)
    (f : FileWriter -> option unit * FileWriter) (w : World)
  : option unit * World :=
  match sw with
  | PyNone => (None, w)
  | PyRef r =>
      match writers w !! r with
      | Some fw => let (o, fw') := f fw in (o, set_writers (insert r fw') w)
      | None => (None, w)
      end
  end.

Definition add_summary (sw : pyval) (summary : Summary) (global_step : Z)
  : Py unit :=
  extern_eff (add_summary_call sw summary global_step)
    (on_writer_eff sw (writer_add_summary summary global_step)).

Definition flush (sw : pyval) : Py unit :=
  extern (flush_call sw) (on_writer sw flush_events).

(** Truth value of a Python value, as [not x] tests it. *)
Definition truth (v : pyval) (w : World) : bool :=
  match v with
  | PyNone => false
  | PyRef r =>
      match writers w !! r with
      | Some fw => truthy fw
      | None => true
      end
  end.

Definition get_self : Py GinConfigSaverHook := gets self.
Definition get_summary_writer : Py pyval :=
  gets (fun w => _summary_writer (self w)).
Definition not_ (v : pyval) : Py bool := gets (fun w => negb (truth v w)).

Section hook.

(** [config.markdown] of [gin/config.py], which is not among the sources. *)
Variable markdown : string -> string.

Definition config_markdown (s : string) : Py string :=
  extern (markdown_call s) (fun w => Some (markdown s, w)).

(** *** [after_create_session], lines 85-121 *)

(** Lines 90-94. *)
Definition global_step_val (session : option Session) : Py Z :=
  match session with
  | None => ret 0
  | Some sess =>
      global_step ← get_global_step;
      match global_step with
      | None => ret 0
      | Some t => session_run sess t
      end
  end.

(** Lines 95-98. *)
Definition filename (this : GinConfigSaverHook) (global_step_val : Z)
  : string :=
  if _include_step_in_filename this
  then _base_name this +:+ "-" +:+ str_int global_step_val +:+ ".gin"
  else _base_name this +:+ ".gin".

(** Line 99. *)
Definition config_path (this : GinConfigSaverHook) (global_step_val : Z)
  : string :=
  os_path_join (_output_dir this) (filename this global_step_val).

(** Lines 104-113. *)
Definition summary_of (this : GinConfigSaverHook) (text_tensor : TensorProto)
  : Summary :=
  let summary_metadata := mkSummaryMetadata "text" "{}" in
  mkSummary
    [mkSummaryValue ("gin/" +:+ _base_name this) text_tensor
       (Some summary_metadata)].

(** Lines 104-121, the body of [if self._summarize_config:]. *)
Definition summarize_config (config_str : string) (global_step_val : Z)
  : Py unit :=
  this ← get_self;
  md_config_str ← config_markdown config_str;
  text_tensor ← make_tensor_proto md_config_str;
  let summary := summary_of this text_tensor in
  sw ← get_summary_writer;
  no_writer ← not_ sw;
  (if no_writer : bool then
     r ← FileWriterCache_get (_output_dir this);
     modify (set_self (set_summary_writer r))
   else ret tt);;
  sw ← get_summary_writer;
  add_summary sw summary global_step_val;;
  sw ← get_summary_writer;
  flush sw.

(** Lines 87-101 on their own, for a hook [this]: the store is left with
    the file written; the two values the rest of the method uses are
    returned. *)
Definition save_config (this : GinConfigSaverHook) (session : option Session)
  : Py (string * Z) :=
  config_str ← operative_config_str;
  is_dir ← isdir (_output_dir this);
  (if negb is_dir then makedirs (_output_dir this) else ret tt);;
  global_step_val ← global_step_val session;
  f ← GFile (config_path this global_step_val) "w";
  finally_ (write f config_str) (close f);;
  ret (config_str, global_step_val).

Definition after_create_session (session : option Session) : Py unit :=
  this ← get_self;
  config_str ← operative_config_str;
  is_dir ← isdir (_output_dir this);
  (if negb is_dir then makedirs (_output_dir this) else ret tt);;
  global_step_val ← global_step_val session;
  f ← GFile (config_path this global_step_val) "w";
  finally_ (write f config_str) (close f);;
  if _summarize_config this
  then summarize_config config_str global_step_val
  else ret tt.

End hook.

(** *** Vocabulary of the properties *)

(** The calls that make up the summary work of lines 104-121. *)
Definition is_summary_call (c : call) : bool :=
  match c with
  | markdown_call _ | make_tensor_proto_call _ | FileWriterCache_get_call _
  | add_summary_call _ _ _ | flush_call _ => true
  | _ => false
  end.

Definition is_save_call (c : call) : bool := negb (is_summary_call c).

(** The step as the specification words it: "0 if no session was supplied
    or no global-step variable is found; otherwise the value obtained by
    executing the global-step variable in the supplied session" ([None]
    when that execution has no value). *)
Definition spec_resolved_step (session : option Session) (w : World)
  : option Z :=
  match session with
  | None => Some 0
  | Some sess =>
      match global_step w with
      | None => Some 0
      | Some t => variables sess !! t
      end
  end.

(** The log entries of a save that goes through. *)
Definition step_calls (session : option Session) (w : World)
  : list (call * bool) :=
  match session with
  | None => []
  | Some sess =>
      (get_global_step_call, true) ::
        match global_step w with
        | None => []
        | Some t => [(session_run_call t, true)]
        end
  end.

Definition mkdir_calls (w : World) : list (call * bool) :=
  let d := _output_dir (self w) in
  (isdir_call d, true) ::
    if is_directory d (fs w) then [] else [(makedirs_call d, true)].

Definition write_calls (w : World) (step : Z) : list (call * bool) :=
  let f := mkGFile (config_path (self w) step) "w" in
  [(GFile_call (config_path (self w) step) "w", true);
   (write_call f (operative_config w), true);
   (close_call f, true)].

Definition save_calls (session : option Session) (w : World) (step : Z)
  : list (call * bool) :=
  (operative_config_str_call, true) :: mkdir_calls w
    ++ step_calls session w ++ write_calls w step.

(** The file system once the output directory is there, and once the
    configuration file has been written and closed. *)
Definition fs_with_dir (d : string) (f : FileSystem) : FileSystem :=
  if is_directory d f then f
  else add_dirs (ancestors (resolve (cwd f) d)) f.

Definition saved_fs (w : World) (step : Z) : FileSystem :=
  let f := fs_with_dir (_output_dir (self w)) (fs w) in
  let p := resolve (cwd f) (config_path (self w) step) in
  close_file p (write_file p (operative_config w) f).

(** The store after a save that goes through. *)
Definition saved_world (session : option Session) (w : World) (step : Z)
  : World :=
  mkWorld (operative_config w) (saved_fs w step) (global_step w) (writers w)
    (writer_cache w) (self w) (faults w)
    (log w ++ save_calls session w step).

(** [makedirs] is not needed, or nothing is in its way. *)
Definition makedirs_ok (w : World) : bool :=
  let p := resolve (cwd (fs w)) (_output_dir (self w)) in
  is_directory (_output_dir (self w)) (fs w)
  || forallb (fun q => bool_decide (files (fs w) !! q = None)) (ancestors p).

(** The writer [FileWriterCache] creates for a directory. *)
Definition new_writer (d : string) : FileWriter :=
  mkFileWriter d true [] [] ∅.

(** The log entries of the writer part of a summary that goes through,
    after the two calls that build the record. *)
Definition summary_calls (w : World) (config_md : string) (step : Z) (r : ref)
  : list (call * bool) :=
  let summary := summary_of (self w) (StringTensor config_md) in
  (if truth (_summary_writer (self w)) w then []
   else [(FileWriterCache_get_call (_output_dir (self w)), true)])
  ++ [(add_summary_call (PyRef r) summary step, true);
      (flush_call (PyRef r), true)].

(** The names of the files a log shows written. *)
Definition written (evs : list (call * bool)) : list string :=
  omap (fun e => match e.1 with
                 | write_call f _ => Some (name f)
                 | _ => None
                 end) evs.

(** What lines 87-101 leave alone. *)
Record save_frame (w w' : World) : Prop := mkSaveFrame {
  sf_config : operative_config w' = operative_config w;
  sf_global_step : global_step w' = global_step w;
  sf_writers : writers w' = writers w;
  sf_cache : writer_cache w' = writer_cache w;
  sf_self : self w' = self w;
  sf_faults : faults w' = faults w;
  sf_cwd : cwd (fs w') = cwd (fs w);
  sf_log : exists evs, log w' = log w ++ evs /\
             Forall (fun e => is_save_call e.1 = true) evs
}.

(** What lines 104-121 leave alone: the configuration, the file system and
    the settings of the hook; a writer on the heap stays there. *)
Record summary_frame (w w' : World) : Prop := mkSummaryFrame {
  zf_config : operative_config w' = operative_config w;
  zf_fs : fs w' = fs w;
  zf_global_step : global_step w' = global_step w;
  zf_faults : faults w' = faults w;
  zf_self : forall v, set_summary_writer v (self w') =
                      set_summary_writer v (self w);
  zf_writers : forall r fw, writers w !! r = Some fw ->
                 exists fw', writers w' !! r = Some fw' /\
                             truthy fw' = truthy fw;
  zf_log : exists evs, log w' = log w ++ evs /\
             Forall (fun e => is_summary_call e.1 = true) evs
}.

(** [within R P m]: whatever its outcome, [m] relates the stores by [R],
    and an exception of [m] comes from a call in [P]. *)
Definition within {A} (R : World -> World -> Prop) (P : call -> bool)
    (m : Py A) : Prop :=
  forall w r w', m w = (r, w') ->
    R w w' /\ forall e, r = Raise e -> exists c, e = Error c /\ P c = true.

Definition is_fetch (c : call) : bool :=
  match c with
  | FileWriterCache_get_call _ => true
  | _ => false
  end.

(** Calls of [FileWriterCache.get] in a log: all of them, and those that
    returned a writer. *)
Definition fetch_attempts (evs : list (call * bool)) : nat :=
  length (List.filter (fun e => is_fetch e.1) evs).
Definition fetches (evs : list (call * bool)) : nat :=
  length (List.filter (fun e => is_fetch e.1 && e.2) evs).

(** The cache holds FileWriters: live and truthy. *)
Definition cache_ok (w : World) : Prop :=
  forall d r, writer_cache w !! d = Some r ->
    exists fw, writers w !! r = Some fw /\ truthy fw = true.

(** The writer the hook holds, if it is an object, is on the heap. *)
Definition writer_live (w : World) : Prop :=
  match _summary_writer (self w) with
  | PyNone => True
  | PyRef r => is_Some (writers w !! r)
  end.

(** What a step that neither touches the hook nor the cache leaves alone. *)
Record writer_frame (w w' : World) : Prop := mkWriterFrame {
  wf_self : self w' = self w;
  wf_cache : writer_cache w' = writer_cache w;
  wf_writers : forall r fw, writers w !! r = Some fw ->
                 exists fw', writers w' !! r = Some fw' /\
                             truthy fw' = truthy fw;
  wf_log : exists evs, log w' = log w ++ evs /\
             Forall (fun e => is_fetch e.1 = false) evs
}.

(** The life of a hook: calls of its method, and anything else that
    leaves the hook object and the log alone and keeps the writers. *)
Inductive hook_step (markdown : string -> string) : World -> World -> Prop :=
| hook_call session w :
    hook_step markdown w (after_create_session markdown session w).2
| hook_env w w' :
    self w' = self w -> log w' = log w ->
    (forall r fw, writers w !! r = Some fw ->
       exists fw', writers w' !! r = Some fw' /\ truthy fw' = truthy fw) ->
    cache_ok w' ->
    hook_step markdown w w'.

(** What one step of the hook's life keeps, and how it moves the count of
    writers fetched. *)
Definition step_ok (u u' : World) : Prop :=
  cache_ok u' /\ writer_live u' /\
  if truth (_summary_writer (self u)) u
  then _summary_writer (self u') = _summary_writer (self u) /\
       truth (_summary_writer (self u')) u' = true /\
       fetch_attempts (log u') = fetch_attempts (log u) /\
       fetches (log u') = fetches (log u)
  else fetches (log u') = fetches (log u) \/
       (fetches (log u') = S (fetches (log u)) /\
        truth (_summary_writer (self u')) u' = true).

(** [commutes T m]: running [m] after the change [T] of the store is
    running [m] and then making the change. *)
Definition commutes {A} (T : World -> World) (m : Py A) : Prop :=
  forall w, m (T w) = ((m w).1, T (m w).2).

(** A name in the sense of the docstring of [base_name] ("name excluding
    path"): no separator in it. *)
Fixpoint has_sep (s : string) : bool :=
  match s with
  | EmptyString => false
  | String c s' => Ascii.eqb c sep || has_sep s'
  end.

(** A path component that [walk] pushes: a name that is none of the
    empty string, '.' and '..'. *)
Definition plain (c : string) : Prop :=
  has_sep c = false /\ (2 < String.length c)%nat.

(** Directories are closed under taking the parent. *)
Definition fs_wf (f : FileSystem) : Prop :=
  forall c p, (c :: p) ∈ dirs f -> p ∈ dirs f.

(** The records a writer holds, in the order they were added. *)
Definition events (fw : FileWriter) : list (Summary * Z) :=
  flushed fw ++ pending fw.

(** No writer is lost or redirected, no record is dropped or reordered,
    and no cache entry is removed or replaced. *)
Record events_kept (w w' : World) : Prop := mkEventsKept {
  ek_cache : forall d r, writer_cache w !! d = Some r ->
               writer_cache w' !! d = Some r;
  ek_writers : forall r fw, writers w !! r = Some fw ->
                 exists fw' more, writers w' !! r = Some fw' /\
                   logdir fw' = logdir fw /\
                   events fw' = events fw ++ more
}.
(** The calls that look the global step up, lines 91-94. *)
Definition is_step_call (c : call) : bool :=
  match c with
  | get_global_step_call | session_run_call _ => true
  | _ => false
  end.

Definition is_makedirs (c : call) : bool :=
  match c with
  | makedirs_call _ => true
  | _ => false
  end.

(** The calls made between two stores are all in [P]. *)
Definition calls_only (P : call -> bool) (w w' : World) : Prop :=
  exists evs, log w' = log w ++ evs /\ Forall (fun e => P e.1 = true) evs.
(** The calls of lines 87-100 that come before the write. *)
Definition is_pre_write_call (c : call) : bool :=
  match c with
  | operative_config_str_call | isdir_call _ | makedirs_call _
  | get_global_step_call | session_run_call _ | GFile_call _ _ => true
  | _ => false
  end.

(** *** A run to compute with *)

(** Stands for [config.markdown]: every line indented (this input has one). *)
Definition markdown_ex (s : string) : string := "    " +:+ s.

Definition fs_ex : FileSystem := mkFS {[ []; ["tmp"] ]} ∅ ∅ [].

Definition hook_ex : GinConfigSaverHook :=
  __init__ "/tmp/run1" "operative_config" true PyNone true.

Definition world_ex : World :=
  mkWorld "a = 1" fs_ex (Some 7%nat) ∅ ∅ hook_ex (fun _ => false) [].

Definition session_ex : Session := mkSession {[ 7%nat := 5 ]}.

Definition summary_ex : Summary :=
  mkSummary [mkSummaryValue "gin/operative_config"
               (StringTensor "    a = 1")
               (Some (mkSummaryMetadata "text" "{}"))].

(** The same hook with summaries off, and a store where [add_summary]
    fails. *)
Definition world_off : World :=
  set_self (set_summarize_config false) world_ex.

Definition world_faulty : World :=
  mkWorld "a = 1" fs_ex (Some 7%nat) ∅ ∅ hook_ex
    (fun c => match c with add_summary_call _ _ _ => true | _ => false end)
    [].

(** A hook built with a falsy object for [summary_writer]. *)
Definition world_falsy : World :=
  mkWorld "a = 1" fs_ex (Some 7%nat)
    {[ 3%nat := mkFileWriter "elsewhere" false [] [] ∅ ]} ∅
    (__init__ "/tmp/run1" "operative_config" true (PyRef 3%nat) true)
    (fun _ => false) [].

(** A hook built with a falsy object, where the cache already holds a
    writer for the output directory. *)
Definition world_cached : World :=
  mkWorld "a = 1" fs_ex (Some 7%nat)
    {[ 3%nat := mkFileWriter "elsewhere" false [] [] ∅;
       4%nat := mkFileWriter "/tmp/run1" true [] [] ∅ ]}
    {[ "/tmp/run1" := 4%nat ]}
    (__init__ "/tmp/run1" "operative_config" true (PyRef 3%nat) true)
    (fun _ => false) [].

Definition done_ex : World :=
  (after_create_session markdown_ex (Some session_ex) world_ex).2.
Definition done_faulty : World :=
  (after_create_session markdown_ex (Some session_ex) world_faulty).2.
Definition done_off : World :=
  (after_create_session markdown_ex (Some session_ex) world_off).2.
Definition done_cached : World :=
  (after_create_session markdown_ex (Some session_ex) world_cached).2.
Definition done_cached_again : World :=
  (after_create_session markdown_ex None done_cached).2.

(** *** More runs to compute with *)

(** A session in which the global step variable has no value. *)
Definition session_unset : Session := mkSession ∅.

(** A hook given a path for [base_name]. *)
Definition hook_abs : GinConfigSaverHook :=
  __init__ "/tmp/run1" "/tmp/cfg" true PyNone true.
Definition world_abs : World :=
  mkWorld "a = 1" fs_ex (Some 7%nat) ∅ ∅ hook_abs (fun _ => false) [].

Definition done_again : World :=
  (after_create_session markdown_ex (Some session_ex) done_ex).2.
Definition done_none : World :=
  (after_create_session markdown_ex None world_ex).2.
Definition done_abs : World :=
  (after_create_session markdown_ex (Some session_ex) world_abs).2.
Definition failed_unset : World :=
  (after_create_session markdown_ex (Some session_unset) world_ex).2.
Definition failed_off : World :=
  (after_create_session markdown_ex (Some session_unset) world_off).2.

End Hook.

(** * Properties *)

(** ** [singleton_per_graph] *)

Module SingletonFacts.
Import Singleton.

Lemma singleton_per_graph_unfold c w :
  singleton_per_graph c w =
    match _SINGLETONS w !! (scope w, default_graph w) with
    | Some v => (Ok v, w)
    | None =>
        match c (heap w) with
        | (Ok v, h') =>
            (Ok v, mkWorld (<[(scope w, default_graph w) := v]> (_SINGLETONS w))
                     (scope w) (default_graph w) h' (S (invocations w)))
        | (Raise e, h') =>
            (Raise e, mkWorld (_SINGLETONS w) (scope w) (default_graph w) h'
                        (S (invocations w)))
        end
    end.
Proof.
  unfold singleton_per_graph, singleton_value, current_scope_str,
    get_default_graph, call, mbind, M_bind, bind, gets, modify, ret.
  destruct (_SINGLETONS w !! (scope w, default_graph w)); [reflexivity|].
  destruct (c (heap w)) as [[v|e] h']; reflexivity.
Qed.

(** A stored instance stays stored: nothing the helper does evicts. *)
Lemma step_keeps_entry k v w w' :
  step w w' -> _SINGLETONS w !! k = Some v -> _SINGLETONS w' !! k = Some v.
Proof.
  intros Hst Hk. destruct Hst as [c w|s w|g w|h w Hh]; simpl; try assumption.
  rewrite singleton_per_graph_unfold.
  destruct (_SINGLETONS w !! (scope w, default_graph w)) as [u|] eqn:Hcur;
    [assumption|].
  destruct (c (heap w)) as [[u|e] h']; simpl; [|assumption].
  rewrite lookup_insert_ne; [assumption|].
  intros Heq. rewrite Heq in Hcur. rewrite Hcur in Hk. discriminate.
Qed.

Lemma steps_keep_entry k v w w' :
  rtc step w w' -> _SINGLETONS w !! k = Some v -> _SINGLETONS w' !! k = Some v.
Proof.
  induction 1 as [|w1 w2 w3 H12 _ IH]; [tauto|].
  intros Hk. apply IH. eapply step_keeps_entry; eassumption.
Qed.

Lemma new_object_allocates : allocates new_object.
Proof.
  intros h v h' Heq. unfold new_object in Heq. simpl in Heq.
  injection Heq as <- <-. split; [apply is_fresh|]. set_solver.
Qed.

(** A constructor that raises leaves nothing behind but its call: the
    exception propagates and the next call tries again. *)
Lemma singleton_per_graph_failing w :
  _SINGLETONS w !! (scope w, default_graph w) = None ->
  exists w',
    singleton_per_graph failing w = (Raise (ConstructorError 0), w') /\
    _SINGLETONS w' = _SINGLETONS w /\
    invocations w' = S (invocations w).
Proof.
  intros Hnone. eexists. rewrite singleton_per_graph_unfold, Hnone.
  simpl. auto.
Qed.

(** C4. With no instance stored for the current (scope, graph) pair, a call
    of [singleton_per_graph] invokes the constructor once and stores what it
    returned in the registry; from then on, whatever happens in between,
    every call made under the same pair returns that very instance and
    leaves the whole store, constructor count included, untouched, whatever
    constructor it is given. *)
Theorem singleton_per_graph_memoizes (c1 : callable) (w : World) v h' :
  _SINGLETONS w !! (scope w, default_graph w) = None ->
  c1 (heap w) = (Ok v, h') ->
  exists w1,
    singleton_per_graph c1 w = (Ok v, w1) /\
    invocations w1 = S (invocations w) /\
    heap w1 = h' /\
    _SINGLETONS w1 = <[(scope w, default_graph w) := v]> (_SINGLETONS w) /\
    forall w2,
      rtc step w1 w2 ->
      scope w2 = scope w -> default_graph w2 = default_graph w ->
      forall c2 : callable, singleton_per_graph c2 w2 = (Ok v, w2).
Proof.
  intros Hnone Hc. eexists. split.
  { rewrite singleton_per_graph_unfold, Hnone, Hc. reflexivity. }
  simpl. repeat split.
  intros w2 Hsteps Hs Hg c2.
  rewrite singleton_per_graph_unfold, Hs, Hg.
  erewrite steps_keep_entry; [reflexivity|eassumption|].
  simpl. apply lookup_insert_eq.
Qed.

Lemma singleton_per_graph_memoizes_witness :
  _SINGLETONS w0 !! (scope w0, default_graph w0) = None /\
  new_object (heap w0) = (Ok 0%nat, {[0%nat]} ∪ ∅) /\
  exists w1,
    singleton_per_graph new_object w0 = (Ok 0%nat, w1) /\
    invocations w1 = 1%nat /\
    heap w1 = {[0%nat]} ∪ ∅ /\
    _SINGLETONS w1 = <[("train", 0%nat) := 0%nat]> ∅ /\
    forall w2,
      rtc step w1 w2 ->
      scope w2 = "train" -> default_graph w2 = 0%nat ->
      forall c2 : callable, singleton_per_graph c2 w2 = (Ok 0%nat, w2).
Proof.
  split; [reflexivity|]. split; [reflexivity|].
  apply (singleton_per_graph_memoizes new_object w0 0%nat ({[0%nat]} ∪ ∅));
    reflexivity.
Defined.

(** C8, as stated, fails: the two instances are whatever the constructor
    returns. With a constructor that hands out one shared object, the calls
    made under graph 0 and under graph 1 (same scope, nothing stored
    before) each invoke the constructor, and both return object 7. *)
Lemma singleton_per_graph_shared_instance :
  default_graph w0 ≠ 1%nat /\
  _SINGLETONS w0 !! (scope w0, default_graph w0) = None /\
  _SINGLETONS w0 !! (scope w0, 1%nat) = None /\
  singleton_per_graph (shared_object 7%nat) w0 = (Ok 7%nat, w0_shared0) /\
  singleton_per_graph (shared_object 7%nat)
    (set_default_graph 1%nat w0_shared0) = (Ok 7%nat, w0_shared1) /\
  invocations w0_shared1 = S (S (invocations w0)).
Proof. repeat split; try reflexivity. discriminate. Qed.

(** C8, amended. Under one scope string and two distinct default graphs,
    neither of which has an instance yet, the helper invokes the
    constructor once for each graph, whatever the constructor, and stores
    the two results under two keys, so the second graph is never served
    the first graph's entry; the two instances are distinct whenever the
    constructor returns a new object at each invocation. *)
Theorem singleton_per_graph_distinct_graphs
    (c : callable) (w : World) (g2 : graph) v1 w1 v2 w2 :
  default_graph w ≠ g2 ->
  _SINGLETONS w !! (scope w, default_graph w) = None ->
  _SINGLETONS w !! (scope w, g2) = None ->
  singleton_per_graph c w = (Ok v1, w1) ->
  singleton_per_graph c (set_default_graph g2 w1) = (Ok v2, w2) ->
  invocations w1 = S (invocations w) /\
  invocations w2 = S (invocations w1) /\
  (exists h1, c (heap w) = (Ok v1, h1) /\ c h1 = (Ok v2, heap w2)) /\
  _SINGLETONS w2 !! (scope w, default_graph w) = Some v1 /\
  _SINGLETONS w2 !! (scope w, g2) = Some v2 /\
  (allocates c -> v1 ≠ v2).
Proof.
  intros Hg H1 H2 Hc1 Hc2.
  rewrite singleton_per_graph_unfold, H1 in Hc1.
  destruct (c (heap w)) as [[u1|e1] h1] eqn:Hr1; [|discriminate].
  injection Hc1 as -> <-.
  rewrite singleton_per_graph_unfold in Hc2. simpl in Hc2.
  rewrite lookup_insert_ne, H2 in Hc2 by congruence.
  destruct (c h1) as [[u2|e2] h2] eqn:Hr2; [|discriminate].
  injection Hc2 as -> <-. simpl.
  split; [reflexivity|]. split; [reflexivity|]. split; [eauto|].
  split; [|split].
  - rewrite lookup_insert_ne by congruence. apply lookup_insert_eq.
  - apply lookup_insert_eq.
  - intros Hal.
    destruct (Hal _ _ _ Hr1) as (_ & Hin1 & _).
    destruct (Hal _ _ _ Hr2) as (Hnin2 & _ & _).
    intros ->. contradiction.
Qed.

Lemma singleton_per_graph_distinct_graphs_witness :
  default_graph w0 ≠ 1%nat /\
  _SINGLETONS w0 !! (scope w0, default_graph w0) = None /\
  _SINGLETONS w0 !! (scope w0, 1%nat) = None /\
  singleton_per_graph new_object w0 = (Ok 0%nat, w0_graph0) /\
  singleton_per_graph new_object (set_default_graph 1%nat w0_graph0)
    = (Ok 1%nat, w0_graph1) /\
  allocates new_object /\
  invocations w0_graph0 = S (invocations w0) /\
  invocations w0_graph1 = S (invocations w0_graph0) /\
  (exists h1, new_object (heap w0) = (Ok 0%nat, h1) /\
              new_object h1 = (Ok 1%nat, heap w0_graph1)) /\
  _SINGLETONS w0_graph1 !! (scope w0, default_graph w0) = Some 0%nat /\
  _SINGLETONS w0_graph1 !! (scope w0, 1%nat) = Some 1%nat /\
  (allocates new_object -> 0%nat ≠ 1%nat).
Proof.
  split; [discriminate|]. split; [reflexivity|]. split; [reflexivity|].
  split; [reflexivity|]. split; [reflexivity|].
  split; [exact new_object_allocates|].
  apply (singleton_per_graph_distinct_graphs new_object w0 1%nat
           0%nat w0_graph0 1%nat w0_graph1);
    [discriminate | reflexivity | reflexivity | reflexivity | reflexivity].
Defined.

End SingletonFacts.

(** ** [GinConfigSaverHook] *)

Module HookFacts.
Import Hook.

(** *** Path strings *)

Lemma append_String c a b : String c a +:+ b = String c (a +:+ b).
Proof. reflexivity. Qed.

Lemma append_empty_l b : "" +:+ b = b.
Proof. reflexivity. Qed.

Lemma append_assoc a b c : (a +:+ b) +:+ c = a +:+ (b +:+ c).
Proof.
  induction a as [|x a IH]; [reflexivity|].
  rewrite !append_String. now rewrite IH.
Qed.

Lemma length_append a b :
  String.length (a +:+ b) = (String.length a + String.length b)%nat.
Proof. induction a as [|c a IH]; simpl; [reflexivity|]. now rewrite IH. Qed.

Lemma has_sep_append a b : has_sep (a +:+ b) = has_sep a || has_sep b.
Proof.
  induction a as [|c a IH]; simpl; [reflexivity|].
  rewrite IH. now rewrite orb_assoc.
Qed.

Lemma split_sep_cons s : exists x xs, split_sep s = x :: xs.
Proof.
  induction s as [|c s (x & xs & IH)]; simpl; [eauto|].
  destruct (Ascii.eqb c sep); [eauto|]. rewrite IH. eauto.
Qed.

Lemma split_sep_plain s : has_sep s = false -> split_sep s = [s].
Proof.
  induction s as [|c s IH]; simpl; [reflexivity|].
  destruct (Ascii.eqb c sep); [discriminate|]. simpl.
  intros H. now rewrite IH.
Qed.

Lemma split_sep_append a b :
  split_sep (a +:+ String sep b) = split_sep a ++ split_sep b.
Proof.
  induction a as [|c a IH]; simpl; [reflexivity|].
  destruct (Ascii.eqb c sep); simpl; rewrite IH; [reflexivity|].
  destruct (split_sep_cons a) as (x & xs & ->). reflexivity.
Qed.

Lemma endswith_sep_inv a :
  endswith_sep a = true -> exists a0, a = a0 +:+ String sep "".
Proof.
  induction a as [|c a IH]; [discriminate|].
  destruct a as [|c' a'].
  - simpl. intros H%Ascii.eqb_eq. subst c. now exists "".
  - intros H. destruct (IH H) as [a0 ->]. now exists (String c a0).
Qed.

Lemma startswith_sep_append a b :
  is_empty a = false -> startswith_sep (a +:+ b) = startswith_sep a.
Proof. destruct a; [discriminate|reflexivity]. Qed.

Lemma has_sep_startswith s : has_sep s = false -> startswith_sep s = false.
Proof.
  destruct s as [|c s]; simpl; [reflexivity|].
  now intros [? ?]%orb_false_elim.
Qed.

Lemma has_sep_pretty_N_go x s : has_sep (pretty_N_go x s) = has_sep s.
Proof.
  revert s. induction (N.lt_wf_0 x) as [x _ IH]; intros s.
  destruct (decide (x = 0)%N) as [->|Hx]; [reflexivity|].
  rewrite pretty_N_go_step by lia. rewrite IH.
  - simpl. unfold pretty_N_char. now repeat case_match.
  - apply N.div_lt; lia.
Qed.

Lemma has_sep_str_int n : has_sep (str_int n) = false.
Proof.
  unfold str_int, pretty, pretty_Z.
  destruct n as [|p|p]; [reflexivity| |].
  - unfold pretty, pretty_positive, pretty, pretty_N.
    case_decide; [reflexivity|]. apply has_sep_pretty_N_go.
  - rewrite has_sep_append. simpl.
    unfold pretty, pretty_positive, pretty, pretty_N.
    case_decide; [reflexivity|]. apply has_sep_pretty_N_go.
Qed.

Lemma walk_plain p c : plain c -> walk p c = c :: p.
Proof.
  intros [_ Hlen]. unfold walk.
  destruct (String.eqb_spec c "") as [->|_]; [simpl in Hlen; lia|].
  destruct (String.eqb_spec c ".") as [->|_]; [simpl in Hlen; lia|].
  destruct (String.eqb_spec c "..") as [->|_]; [simpl in Hlen; lia|].
  reflexivity.
Qed.

Lemma resolve_join cwd a b :
  plain b -> resolve cwd (os_path_join a b) = b :: resolve cwd a.
Proof.
  intros Hb. pose proof Hb as [Hsep Hlen].
  unfold os_path_join. rewrite (has_sep_startswith _ Hsep).
  unfold resolve.
  destruct a as [|c a'] eqn:Ha.
  { cbn [is_empty orb]. change ("" +:+ b) with b.
    rewrite (has_sep_startswith _ Hsep), (split_sep_plain _ Hsep).
    simpl. now apply walk_plain. }
  rewrite <- Ha. assert (is_empty a = false) as Hne by now subst a.
  rewrite Hne. simpl. clear Ha.
  destruct (endswith_sep a) eqn:He.
  - destruct (endswith_sep_inv _ He) as [a0 Ha0].
    rewrite startswith_sep_append by assumption.
    rewrite Ha0 at 1 3. rewrite append_assoc.
    change (String sep "" +:+ b) with (String sep b).
    rewrite !split_sep_append, (split_sep_plain _ Hsep). simpl.
    rewrite !fold_left_app. simpl. now rewrite walk_plain.
  - rewrite startswith_sep_append by assumption.
    change ("/" +:+ b) with (String sep b).
    rewrite split_sep_append, (split_sep_plain _ Hsep), fold_left_app.
    simpl. now apply walk_plain.
Qed.

Lemma filename_plain this step :
  has_sep (_base_name this) = false -> plain (filename this step).
Proof.
  intros Hb. unfold filename, plain.
  destruct (_include_step_in_filename this);
    rewrite ?has_sep_append, ?length_append, ?has_sep_str_int, Hb; simpl;
    split; try reflexivity; lia.
Qed.

(** *** Running computations *)

Lemma mbind_eq {A B} (m : Py A) (k : A -> Py B) w :
  (m ≫= k) w =
    match m w with
    | (Ok a, w1) => k a w1
    | (Raise e, w1) => (Raise e, w1)
    end.
Proof. reflexivity. Qed.

Lemma finally_eq {A} (m : Py A) (c : Py unit) w :
  finally_ m c w =
    match m w with
    | (r, w1) =>
        match c w1 with
        | (Ok _, w2) => (r, w2)
        | (Raise e, w2) => (Raise e, w2)
        end
    end.
Proof. reflexivity. Qed.

Lemma extern_total {A} c (f : World -> A) (g : World -> World) w r w' :
  extern c (fun w => Some (f w, g w)) w = (r, w') ->
  (r = Raise (Error c) /\ w' = record c false w) \/
  (faults w c = false /\ r = Ok (f w) /\ w' = record c true (g w)).
Proof.
  unfold extern. destruct (faults w c); intros [= <- <-]; auto.
Qed.

Lemma extern_partial {A} c (body : World -> option (A * World)) w r w' :
  extern c body w = (r, w') ->
  (r = Raise (Error c) /\ w' = record c false w) \/
  (exists a w1, faults w c = false /\ body w = Some (a, w1) /\
                r = Ok a /\ w' = record c true w1).
Proof.
  unfold extern. destruct (faults w c) eqn:Hf.
  - intros [= <- <-]. auto.
  - destruct (body w) as [[a w1]|]; intros [= <- <-]; eauto 8.
Qed.

Lemma extern_run {A} c (body : World -> option (A * World)) w a w1 :
  faults w c = false -> body w = Some (a, w1) ->
  extern c body w = (Ok a, record c true w1).
Proof. intros Hf Hb. unfold extern. now rewrite Hf, Hb. Qed.

Lemma extern_eff_inv {A} c (body : World -> option A * World) w r w' :
  extern_eff c body w = (r, w') ->
  (r = Raise (Error c) /\ w' = record c false w) \/
  (exists w1, faults w c = false /\ body w = (None, w1) /\
              r = Raise (Error c) /\ w' = record c false w1) \/
  (exists a w1, faults w c = false /\ body w = (Some a, w1) /\
                r = Ok a /\ w' = record c true w1).
Proof.
  unfold extern_eff. destruct (faults w c) eqn:Hf.
  - intros [= <- <-]. auto.
  - destruct (body w) as [[a|] w1]; intros [= <- <-]; eauto 8.
Qed.

Lemma extern_eff_run {A} c (body : World -> option A * World) w a w1 :
  faults w c = false -> body w = (Some a, w1) ->
  extern_eff c body w = (Ok a, record c true w1).
Proof. intros Hf Hb. unfold extern_eff. now rewrite Hf, Hb. Qed.

Lemma on_writer_eff_inv sw f w o w1 :
  on_writer_eff sw f w = (o, w1) ->
  (o = None /\ w1 = w) \/
  (exists r fw fw', sw = PyRef r /\ writers w !! r = Some fw /\
                    f fw = (o, fw') /\ w1 = set_writers (insert r fw') w).
Proof.
  unfold on_writer_eff. destruct sw as [|r]; [intros [= <- <-]; auto|].
  destruct (writers w !! r) as [fw|] eqn:Hr; [|intros [= <- <-]; auto].
  destruct (f fw) as [o' fw'] eqn:Hf. intros [= <- <-]. eauto 8.
Qed.

Lemma writer_add_summary_keeps summary step fw o fw' :
  writer_add_summary summary step fw = (o, fw') ->
  truthy fw' = truthy fw /\ logdir fw' = logdir fw /\
  flushed fw' = flushed fw /\
  exists more, pending fw' = pending fw ++ more.
Proof.
  unfold writer_add_summary. destruct (in_int64 step); intros [= <- <-];
    simpl; repeat split.
  - eauto.
  - exists []. now rewrite app_nil_r.
Qed.

(** *** Frames, compositionally *)

Section within.
Context (R : World -> World -> Prop) (P : call -> bool).
Context `{!PreOrder R}.

Lemma within_ret {A} (a : A) : within R P (mret a : Py A).
Proof. intros w r w' [= <- <-]. split; [reflexivity|discriminate]. Qed.

Lemma within_gets {A} (f : World -> A) : within R P (gets f).
Proof. intros w r w' [= <- <-]. split; [reflexivity|discriminate]. Qed.

Lemma within_bind {A B} (m : Py A) (k : A -> Py B) :
  within R P m -> (forall a, within R P (k a)) -> within R P (m ≫= k).
Proof.
  intros Hm Hk w r w'. rewrite mbind_eq.
  destruct (m w) as [[a|e] w1] eqn:E; destruct (Hm _ _ _ E) as [HR He].
  - intros Hka. destruct (Hk _ _ _ _ Hka) as [HR' He'].
    split; [etrans; eassumption|assumption].
  - intros [= <- <-]. split; [assumption|]. intros e' [= <-]. eauto.
Qed.

Lemma within_finally {A} (m : Py A) (c : Py unit) :
  within R P m -> within R P c -> within R P (finally_ m c).
Proof.
  intros Hm Hc w r w'. rewrite finally_eq.
  destruct (m w) as [r1 w1] eqn:E; destruct (Hm _ _ _ E) as [HR He].
  destruct (c w1) as [[[]|e] w2] eqn:E2; destruct (Hc _ _ _ E2) as [HR2 He2];
    intros [= <- <-]; (split; [etrans; eassumption|]).
  - assumption.
  - intros e' [= <-]. eauto.
Qed.

Lemma within_if {A} (b : bool) (m1 m2 : Py A) :
  within R P m1 -> within R P m2 -> within R P (if b then m1 else m2).
Proof. destruct b; auto. Qed.

Lemma within_extern {A} c (body : World -> option (A * World)) :
  P c = true ->
  (forall w ok, R w (record c ok w)) ->
  (forall w a w1, body w = Some (a, w1) -> R w w1) ->
  within R P (extern c body).
Proof.
  intros HP Hrec Hbody w r w' E.
  apply extern_partial in E as [[-> ->]|(a & w1 & _ & Hb & -> & ->)].
  - split; [apply Hrec|]. intros e [= <-]. eauto.
  - split; [|discriminate]. etrans; [eapply Hbody; eassumption|apply Hrec].
Qed.

Lemma within_extern_eff {A} c (body : World -> option A * World) :
  P c = true ->
  (forall w ok, R w (record c ok w)) ->
  (forall w o w1, body w = (o, w1) -> R w w1) ->
  within R P (extern_eff c body).
Proof.
  intros HP Hrec Hbody w r w' E.
  apply extern_eff_inv in E
    as [[-> ->]|[(w1 & _ & Hb & -> & ->)|(a & w1 & _ & Hb & -> & ->)]].
  - split; [apply Hrec|]. intros e [= <-]. eauto.
  - split; [|intros e [= <-]; eauto].
    etrans; [eapply Hbody; eassumption|apply Hrec].
  - split; [|discriminate]. etrans; [eapply Hbody; eassumption|apply Hrec].
Qed.

End within.

(** *** Changes of the store a computation does not see *)

Section commute.
Context (T : World -> World).
Hypothesis T_faults : forall w, faults (T w) = faults w.
Hypothesis T_record : forall c ok w, T (record c ok w) = record c ok (T w).

Lemma commutes_ret {A} (a : A) : commutes T (mret a : Py A).
Proof. intros w. reflexivity. Qed.

Lemma commutes_bind {A B} (m : Py A) (k : A -> Py B) :
  commutes T m -> (forall a, commutes T (k a)) -> commutes T (m ≫= k).
Proof.
  intros Hm Hk w. rewrite !mbind_eq, Hm.
  destruct (m w) as [[a|e] w1]; simpl; [apply Hk|reflexivity].
Qed.

Lemma commutes_finally {A} (m : Py A) (c : Py unit) :
  commutes T m -> commutes T c -> commutes T (finally_ m c).
Proof.
  intros Hm Hc w. rewrite !finally_eq, Hm.
  destruct (m w) as [r w1]; simpl. rewrite Hc.
  destruct (c w1) as [[[]|e] w2]; reflexivity.
Qed.

Lemma commutes_if {A} (b : bool) (m1 m2 : Py A) :
  commutes T m1 -> commutes T m2 -> commutes T (if b then m1 else m2).
Proof. destruct b; auto. Qed.

Lemma commutes_extern {A} c (body : World -> option (A * World)) :
  (forall w, body (T w) =
             match body w with
             | Some (a, w1) => Some (a, T w1)
             | None => None
             end) ->
  commutes T (extern c body).
Proof.
  intros Hb w. unfold extern. rewrite T_faults, Hb.
  destruct (faults w c); simpl; [now rewrite T_record|].
  destruct (body w) as [[a w1]|]; simpl; now rewrite T_record.
Qed.

End commute.

(** *** The three frames *)

Lemma save_frame_preorder : PreOrder save_frame.
Proof.
  split.
  - intros w. split; try reflexivity. exists []. rewrite app_nil_r. auto.
  - intros w1 w2 w3 [? ? ? ? ? ? ? (evs1 & Hl1 & H1)]
      [? ? ? ? ? ? ? (evs2 & Hl2 & H2)].
    split; try congruence.
    exists (evs1 ++ evs2). rewrite Hl2, Hl1, List.app_assoc.
    split; [reflexivity|]. apply Forall_app; auto.
Qed.
#[local] Existing Instance save_frame_preorder.

Lemma summary_frame_preorder : PreOrder summary_frame.
Proof.
  split.
  - intros w. split; try reflexivity; [eauto|].
    exists []. rewrite app_nil_r. auto.
  - intros w1 w2 w3 [? ? ? ? ? Hw1 (evs1 & Hl1 & H1)]
      [? ? ? ? ? Hw2 (evs2 & Hl2 & H2)].
    split; try congruence.
    + intros r fw Hr. destruct (Hw1 _ _ Hr) as (fw' & Hr' & Ht).
      destruct (Hw2 _ _ Hr') as (fw'' & Hr'' & Ht').
      exists fw''. split; [assumption|congruence].
    + exists (evs1 ++ evs2). rewrite Hl2, Hl1, List.app_assoc.
      split; [reflexivity|]. apply Forall_app; auto.
Qed.
#[local] Existing Instance summary_frame_preorder.

Lemma save_frame_record c ok w :
  is_save_call c = true -> save_frame w (record c ok w).
Proof.
  intros Hc. split; try reflexivity. exists [(c, ok)]. split; [reflexivity|].
  constructor; [assumption|constructor].
Qed.

Lemma save_frame_set_fs f w :
  cwd (f (fs w)) = cwd (fs w) -> save_frame w (set_fs f w).
Proof.
  intros Hc. split; try reflexivity; [assumption|].
  exists []. simpl. rewrite app_nil_r. auto.
Qed.

Lemma summary_frame_record c ok w :
  is_summary_call c = true -> summary_frame w (record c ok w).
Proof.
  intros Hc. split; try reflexivity; [eauto|].
  exists [(c, ok)]. split; [reflexivity|].
  constructor; [assumption|constructor].
Qed.

Ltac within_save :=
  repeat first
    [ apply within_bind; [exact _| |intros ?]
    | apply within_finally; [exact _| |]
    | apply within_if
    | apply within_ret; exact _
    | apply within_gets; exact _
    | apply within_extern;
      [ exact _
      | reflexivity
      | intros ? ?; apply save_frame_record; reflexivity
      | let Hb := fresh in
        intros ? ? ? Hb; repeat case_match; simplify_eq;
        first [reflexivity | apply save_frame_set_fs; reflexivity] ] ].

Lemma writer_frame_preorder : PreOrder writer_frame.
Proof.
  split.
  - intros w. split; try reflexivity; [eauto|].
    exists []. rewrite app_nil_r. auto.
  - intros w1 w2 w3 [Hs1 Hc1 Hw1 (evs1 & Hl1 & Hq1)]
      [Hs2 Hc2 Hw2 (evs2 & Hl2 & Hq2)].
    split; try congruence.
    + intros r fw Hr. destruct (Hw1 _ _ Hr) as (fw' & Hr' & Ht).
      destruct (Hw2 _ _ Hr') as (fw'' & Hr'' & Ht').
      exists fw''. split; [assumption|congruence].
    + exists (evs1 ++ evs2). rewrite Hl2, Hl1, List.app_assoc.
      split; [reflexivity|]. apply Forall_app; auto.
Qed.
#[local] Existing Instance writer_frame_preorder.

Lemma fetches_app l1 l2 : fetches (l1 ++ l2) = (fetches l1 + fetches l2)%nat.
Proof. unfold fetches. now rewrite List.filter_app, length_app. Qed.

Lemma fetch_attempts_app l1 l2 :
  fetch_attempts (l1 ++ l2) = (fetch_attempts l1 + fetch_attempts l2)%nat.
Proof. unfold fetch_attempts. now rewrite List.filter_app, length_app. Qed.

Lemma no_fetch_counts evs :
  Forall (fun e => is_fetch e.1 = false) evs ->
  fetch_attempts evs = 0%nat /\ fetches evs = 0%nat.
Proof.
  induction 1 as [|[c ok] evs Hc _ [IH1 IH2]]; [split; reflexivity|].
  unfold fetch_attempts, fetches in *. simpl in *. rewrite Hc. simpl. auto.
Qed.

Lemma writer_frame_counts w w' :
  writer_frame w w' ->
  fetch_attempts (log w') = fetch_attempts (log w) /\
  fetches (log w') = fetches (log w).
Proof.
  intros [_ _ _ (evs & -> & Hq)]. apply no_fetch_counts in Hq as [H1 H2].
  rewrite fetch_attempts_app, fetches_app, H1, H2. lia.
Qed.

Lemma writer_frame_cache_ok w w' :
  writer_frame w w' -> cache_ok w -> cache_ok w'.
Proof.
  intros [_ Hc Hw _] Hok d r Hr. rewrite Hc in Hr.
  destruct (Hok _ _ Hr) as (fw & Hfw & Ht).
  destruct (Hw _ _ Hfw) as (fw' & Hfw' & Ht'). exists fw'.
  split; [assumption|congruence].
Qed.

Lemma writer_frame_live w w' :
  writer_frame w w' -> writer_live w -> writer_live w'.
Proof.
  intros [Hs _ Hw _]. unfold writer_live. rewrite Hs.
  destruct (_summary_writer (self w)) as [|r]; [auto|].
  intros [fw Hfw]. destruct (Hw _ _ Hfw) as (fw' & -> & _). eauto.
Qed.

Lemma writer_frame_truth w w' :
  writer_frame w w' -> writer_live w ->
  truth (_summary_writer (self w')) w' = truth (_summary_writer (self w)) w.
Proof.
  intros [Hs _ Hw _]. unfold writer_live, truth. rewrite Hs.
  destruct (_summary_writer (self w)) as [|r]; [auto|].
  intros [fw Hfw]. destruct (Hw _ _ Hfw) as (fw' & -> & Ht). now rewrite Hfw.
Qed.

Lemma save_frame_writer_frame w w' : save_frame w w' -> writer_frame w w'.
Proof.
  intros [_ _ Hws Hwc Hself _ _ (evs & Hl & Hq)].
  split; try assumption.
  - intros r fw Hr. rewrite Hws. eauto.
  - exists evs. split; [assumption|].
    eapply Forall_impl; [exact Hq|]. intros [c ok]. simpl. now destruct c.
Qed.

Lemma writer_frame_record c ok w :
  is_fetch c = false -> writer_frame w (record c ok w).
Proof.
  intros Hc. split; try reflexivity; [eauto|].
  exists [(c, ok)]. split; [reflexivity|]. repeat constructor. assumption.
Qed.

Lemma writer_frame_on_writer sw f w a w1 :
  (forall fw, truthy (f fw) = truthy fw) ->
  on_writer sw f w = Some (a, w1) -> writer_frame w w1.
Proof.
  intros Hf. unfold on_writer. destruct sw as [|r]; [discriminate|].
  destruct (writers w !! r) as [fw|] eqn:Hr; [|discriminate].
  intros [= <- <-]. split; try reflexivity.
  - intros r0 fw0 Hr0. simpl. destruct (decide (r = r0)) as [->|Hne].
    + rewrite lookup_insert_eq. exists (f fw). split; congruence.
    + rewrite lookup_insert_ne by assumption. eauto.
  - exists []. simpl. rewrite app_nil_r. auto.
Qed.

Lemma writer_frame_on_writer_eff sw f w o w1 :
  (forall fw o fw', f fw = (o, fw') -> truthy fw' = truthy fw) ->
  on_writer_eff sw f w = (o, w1) -> writer_frame w w1.
Proof.
  intros Hf H.
  apply on_writer_eff_inv in H
    as [[_ ->]|(r & fw & fw' & _ & Hr & Hfw & ->)]; [reflexivity|].
  split; try reflexivity.
  - intros r0 fw0 Hr0. simpl. destruct (decide (r = r0)) as [->|Hne].
    + rewrite lookup_insert_eq. exists fw'. split; [reflexivity|].
      rewrite Hr in Hr0. injection Hr0 as <-. eauto.
    + rewrite lookup_insert_ne by assumption. eauto.
  - exists []. simpl. rewrite app_nil_r. auto.
Qed.

(** *** The method, part by part *)

Section facts.
Variable markdown : string -> string.

Lemma save_config_within this session :
  within save_frame is_save_call (save_config this session).
Proof.
  unfold save_config, operative_config_str, isdir, makedirs,
    global_step_val, get_global_step, session_run, GFile, write, close.
  destruct session as [sess|]; within_save.
  case_match; within_save.
Qed.

Lemma summary_frame_insert r fw fw' w :
  writers w !! r = Some fw -> truthy fw' = truthy fw ->
  summary_frame w (set_writers (insert r fw') w).
Proof.
  intros Hr Ht. split; try reflexivity.
  - intros r0 fw0 Hr0. simpl. destruct (decide (r = r0)) as [->|Hne].
    + rewrite lookup_insert_eq. exists fw'. split; congruence.
    + rewrite lookup_insert_ne by assumption. eauto.
  - exists []. simpl. rewrite app_nil_r. auto.
Qed.

Lemma summary_frame_on_writer sw f w a w1 :
  (forall fw, truthy (f fw) = truthy fw) ->
  on_writer sw f w = Some (a, w1) -> summary_frame w w1.
Proof.
  intros Hf. unfold on_writer. destruct sw as [|r]; [discriminate|].
  destruct (writers w !! r) as [fw|] eqn:Hr; [|discriminate].
  intros [= <- <-]. eapply summary_frame_insert; eauto.
Qed.

Lemma summary_frame_on_writer_eff sw f w o w1 :
  (forall fw o fw', f fw = (o, fw') -> truthy fw' = truthy fw) ->
  on_writer_eff sw f w = (o, w1) -> summary_frame w w1.
Proof.
  intros Hf H.
  apply on_writer_eff_inv in H
    as [[_ ->]|(r & fw & fw' & _ & Hr & Hfw & ->)]; [reflexivity|].
  eapply summary_frame_insert; eauto.
Qed.

Lemma summary_frame_cache_get d w :
  summary_frame w
    (set_writer_cache (insert d (fresh (dom (writers w))))
       (set_writers
          (insert (fresh (dom (writers w))) (mkFileWriter d true [] [] ∅))
          w)).
Proof.
  split; try reflexivity.
  - intros r fw Hr. simpl. exists fw. split; [|reflexivity].
    rewrite lookup_insert_ne; [assumption|].
    intros <-. apply (is_fresh (dom (writers w))). apply elem_of_dom. eauto.
  - exists []. simpl. rewrite app_nil_r. auto.
Qed.

Lemma summary_frame_set_writer v w :
  summary_frame w (set_self (set_summary_writer v) w).
Proof.
  split; try reflexivity; [eauto|]. exists []. simpl. rewrite app_nil_r. auto.
Qed.

Lemma within_modify_writer v :
  within summary_frame is_summary_call
    (modify (set_self (set_summary_writer v)) : Py unit).
Proof.
  intros w r w' [= <- <-]. split; [apply summary_frame_set_writer|discriminate].
Qed.

Ltac within_summary :=
  repeat first
    [ apply within_bind; [exact _| |intros ?]
    | apply within_if
    | apply within_ret; exact _
    | apply within_gets; exact _
    | apply within_modify_writer
    | apply within_extern_eff;
      [ exact _
      | reflexivity
      | intros ? ?; apply summary_frame_record; reflexivity
      | let Hb := fresh in
        intros ? ? ? Hb;
        eapply summary_frame_on_writer_eff; [|exact Hb];
        intros ? ? ? ?; eapply writer_add_summary_keeps; eassumption ]
    | apply within_extern;
      [ exact _
      | reflexivity
      | intros ? ?; apply summary_frame_record; reflexivity
      | let Hb := fresh in
        intros ? ? ? Hb;
        first
          [ eapply summary_frame_on_writer; [|exact Hb]; reflexivity
          | repeat case_match; simplify_eq;
            first [reflexivity | apply summary_frame_cache_get] ] ] ].

Lemma summarize_config_within config_str step :
  within summary_frame is_summary_call
    (summarize_config markdown config_str step).
Proof.
  unfold summarize_config, get_self, get_summary_writer, not_,
    config_markdown, make_tensor_proto, FileWriterCache_get, add_summary,
    flush.
  within_summary.
Qed.

Lemma after_create_session_split session w :
  after_create_session markdown session w =
    match save_config (self w) session w with
    | (Ok (config_str, step), w1) =>
        if _summarize_config (self w)
        then summarize_config markdown config_str step w1
        else (Ok tt, w1)
    | (Raise e, w1) => (Raise e, w1)
    end.
Proof.
  unfold after_create_session, save_config.
  rewrite mbind_eq. unfold get_self at 1, gets at 1.
  repeat (rewrite !mbind_eq;
          match goal with
          | |- context [match ?m w with _ => _ end] =>
              destruct (m w) as [[?|?] ?]; try reflexivity
          | |- context [match ?m ?w with _ => _ end] =>
              destruct (m w) as [[?|?] ?]; try reflexivity
          end).
  all: cbn; case_match; reflexivity.
Qed.

Ltac inj_pair H := first [injection H as <- <- | injection H as <-].

Ltac inv_total E :=
  apply extern_total in E as [[E ->]|(? & E & ->)];
  first [discriminate E | injection E as -> | clear E].

Ltac inv_partial E Hb :=
  apply extern_partial in E as [[E ->]|(? & ? & ? & Hb & E & ->)];
  first [discriminate E | injection E as <- | clear E].

Lemma global_step_val_Ok session w v w' :
  global_step_val session w = (Ok v, w') ->
  spec_resolved_step session w = Some v /\
  operative_config w' = operative_config w /\ fs w' = fs w /\
  global_step w' = global_step w /\ writers w' = writers w /\
  writer_cache w' = writer_cache w /\ self w' = self w /\
  faults w' = faults w /\ log w' = log w ++ step_calls session w.
Proof.
  unfold global_step_val. destruct session as [sess|]; simpl.
  2:{ intros [= <- <-]. rewrite app_nil_r. done. }
  rewrite mbind_eq. destruct (get_global_step w) as [[g|e] w1] eqn:E; [|done].
  inv_total E. destruct (global_step w) as [t|] eqn:Hg; simpl.
  2:{ intros [= <- <-]. simpl. done. }
  intros E. inv_partial E Hb.
  destruct (variables sess !! t); [|discriminate].
  inj_pair Hb. simpl. rewrite <- List.app_assoc. done.
Qed.

Ltac bind_ok H E :=
  rewrite mbind_eq in H;
  match type of H with
  | context [match ?m ?w with _ => _ end] =>
      destruct (m w) as [[?|?] ?] eqn:E; [|discriminate H]
  end.

Lemma fs_with_dir_cwd d f : cwd (fs_with_dir d f) = cwd f.
Proof. unfold fs_with_dir. destruct (is_directory d f); reflexivity. Qed.

Lemma world_eq w1 w2 :
  operative_config w1 = operative_config w2 -> fs w1 = fs w2 ->
  global_step w1 = global_step w2 -> writers w1 = writers w2 ->
  writer_cache w1 = writer_cache w2 -> self w1 = self w2 ->
  faults w1 = faults w2 -> log w1 = log w2 -> w1 = w2.
Proof. destruct w1, w2; simpl; congruence. Qed.

Lemma spec_resolved_step_ext session w w' :
  global_step w' = global_step w ->
  spec_resolved_step session w' = spec_resolved_step session w.
Proof. unfold spec_resolved_step. now intros ->. Qed.

Lemma step_calls_ext session w w' :
  global_step w' = global_step w ->
  step_calls session w' = step_calls session w.
Proof. unfold step_calls. now intros ->. Qed.

Lemma save_config_Ok session w config_str step w1 :
  save_config (self w) session w = (Ok (config_str, step), w1) ->
  config_str = operative_config w /\
  spec_resolved_step session w = Some step /\
  makedirs_ok w = true /\
  writable (resolve (cwd (fs w)) (config_path (self w) step))
    (fs_with_dir (_output_dir (self w)) (fs w)) = true /\
  w1 = saved_world session w step.
Proof.
  intros H. unfold save_config in H.
  bind_ok H E. inv_total E.
  bind_ok H E. inv_total E. cbn [record fs dirs cwd] in H.
  bind_ok H E.
  assert (makedirs_ok w = true /\
          fs w0 = fs_with_dir (_output_dir (self w)) (fs w) /\
          operative_config w0 = operative_config w /\
          global_step w0 = global_step w /\ writers w0 = writers w /\
          writer_cache w0 = writer_cache w /\ self w0 = self w /\
          faults w0 = faults w /\
          log w0 = log w ++ (operative_config_str_call, true) :: mkdir_calls w)
    as (Hmk & Hfs & Hcfg & Hgs & Hws & Hwc & Hself & Hfl & Hlog).
  { unfold makedirs_ok, fs_with_dir, mkdir_calls.
    destruct (is_directory _ _) eqn:Hd; simpl in E.
    - injection E as <- <-. simpl. rewrite <- List.app_assoc. done.
    - inv_partial E Hb. simpl in Hb. case_match; [|discriminate].
      inj_pair Hb. simpl. rewrite <- !List.app_assoc. done. }
  clear E. bind_ok H E. apply global_step_val_Ok in E.
  destruct E
    as (Hstep & Hcfg' & Hfs' & Hgs' & Hws' & Hwc' & Hself' & Hfl' & Hlog').
  rewrite (spec_resolved_step_ext _ _ _ Hgs) in Hstep.
  rewrite (step_calls_ext _ _ _ Hgs) in Hlog'.
  bind_ok H E. inv_total E.
  bind_ok H E. rewrite finally_eq in E.
  destruct (write _ _ _) as [rw ww] eqn:Ew.
  destruct (close _ _) as [[[]|ec] wc] eqn:Ec; [|discriminate E].
  injection E as Hrw Hw3; subst rw w3.
  inv_partial Ew Hb. inv_total Ec.
  cbn [mode name record fs cwd] in Hb.
  destruct (String.eqb _ _ && _) eqn:Hw; [|discriminate Hb].
  inj_pair Hb. injection H as <- <- <-.
  rewrite Hfs', Hfs in Hw. rewrite fs_with_dir_cwd in Hw. simpl in Hw.
  repeat split; try assumption.
  apply world_eq; simpl; rewrite ?Hfs', ?Hfs, ?fs_with_dir_cwd; try congruence.
  - unfold saved_fs. rewrite fs_with_dir_cwd. reflexivity.
  - rewrite Hlog', Hlog. unfold save_calls, write_calls.
    rewrite <- !List.app_assoc. reflexivity.
Qed.

Lemma global_step_val_run session w step :
  (forall c, faults w c = false) ->
  spec_resolved_step session w = Some step ->
  exists w', global_step_val session w = (Ok step, w').
Proof.
  intros Hf Hs. unfold global_step_val. destruct session as [sess|]; simpl in *.
  2:{ injection Hs as <-. eauto. }
  rewrite mbind_eq. unfold get_global_step.
  erewrite extern_run; [|apply Hf|reflexivity].
  destruct (global_step w) as [t|].
  2:{ injection Hs as <-. eauto. }
  unfold session_run. erewrite extern_run; [eauto|apply Hf|].
  rewrite Hs. reflexivity.
Qed.

Lemma save_config_run session w step :
  (forall c, faults w c = false) ->
  makedirs_ok w = true ->
  spec_resolved_step session w = Some step ->
  writable (resolve (cwd (fs w)) (config_path (self w) step))
    (fs_with_dir (_output_dir (self w)) (fs w)) = true ->
  save_config (self w) session w =
    (Ok (operative_config w, step), saved_world session w step).
Proof.
  intros Hf Hmk Hs Hw.
  cut (exists w1, save_config (self w) session w =
                    (Ok (operative_config w, step), w1)).
  { intros [w1 H]. rewrite H. f_equal. apply save_config_Ok in H. tauto. }
  unfold save_config. rewrite mbind_eq. unfold operative_config_str.
  erewrite extern_run; [|apply Hf|reflexivity].
  rewrite mbind_eq. unfold isdir.
  erewrite extern_run; [|apply Hf|reflexivity].
  rewrite mbind_eq.
  change (fs (record operative_config_str_call true w)) with (fs w).
  set (wb := record (isdir_call _) true _).
  assert (exists wc, (if negb (is_directory (_output_dir (self w)) (fs w))
                      then makedirs (_output_dir (self w)) else ret tt) wb
                     = (Ok tt, wc) /\
                     fs wc = fs_with_dir (_output_dir (self w)) (fs w) /\
                     faults wc = faults w /\ global_step wc = global_step w)
    as (wc & -> & Hfs & Hfc & Hgc).
  { unfold makedirs_ok in Hmk. unfold fs_with_dir. subst wb. simpl.
    destruct (is_directory _ _) eqn:Hd; simpl in *.
    - eexists. split; [reflexivity|]. simpl. auto.
    - unfold makedirs.
      erewrite extern_run; [|apply Hf|simpl; rewrite Hmk; reflexivity].
      eexists. split; [reflexivity|]. simpl. auto. }
  rewrite mbind_eq.
  destruct (global_step_val_run session wc step) as [wd Hd].
  { intros c. rewrite Hfc. apply Hf. }
  { rewrite (spec_resolved_step_ext _ _ _ Hgc). assumption. }
  rewrite Hd. apply global_step_val_Ok in Hd.
  destruct Hd as (_ & _ & Hfsd & _ & _ & _ & _ & Hfd & _).
  rewrite mbind_eq. unfold GFile.
  erewrite extern_run; [|rewrite Hfd, Hfc; apply Hf|reflexivity].
  rewrite mbind_eq, finally_eq. unfold write.
  erewrite extern_run; [|simpl; rewrite Hfd, Hfc; apply Hf|].
  2:{ simpl. rewrite Hfsd, Hfs, fs_with_dir_cwd, Hw. reflexivity. }
  unfold close.
  erewrite extern_run; [|simpl; rewrite Hfd, Hfc; apply Hf|reflexivity].
  eexists. reflexivity.
Qed.

Lemma writer_add_summary_Some summary step fw a fw' :
  writer_add_summary summary step fw = (Some a, fw') ->
  in_int64 step = true /\ fw' = writer_after_add summary step fw.
Proof.
  unfold writer_add_summary. destruct (in_int64 step); [|discriminate].
  intros [= _ <-]. auto.
Qed.

Lemma add_summary_Ok sw summary step w a w' :
  add_summary sw summary step w = (Ok a, w') ->
  exists r fw,
    sw = PyRef r /\ writers w !! r = Some fw /\ in_int64 step = true /\
    w' = record (add_summary_call sw summary step) true
           (set_writers (insert r (writer_after_add summary step fw)) w).
Proof.
  intros H. unfold add_summary in H.
  apply extern_eff_inv in H
    as [[[=] _]|[(? & _ & _ & [=] & _)|(a0 & w1 & _ & Hb & _ & ->)]].
  apply on_writer_eff_inv in Hb
    as [[[=] _]|(r & fw & fw' & -> & Hr & Hfw & ->)].
  apply writer_add_summary_Some in Hfw as [Hin ->]. eauto 8.
Qed.

Lemma summarize_config_Ok config_str step w w' :
  summarize_config markdown config_str step w = (Ok tt, w') ->
  let d := _output_dir (self w) in
  let summary := summary_of (self w) (StringTensor (markdown config_str)) in
  exists r,
    self w' = set_summary_writer (PyRef r) (self w) /\
    (if truth (_summary_writer (self w)) w
     then _summary_writer (self w) = PyRef r /\ writer_cache w' = writer_cache w
     else writer_cache w' = <[d := r]> (writer_cache w) /\
          r = default (fresh (dom (writers w))) (writer_cache w !! d)) /\
    in_int64 step = true /\
    writers w' =
      <[r := flush_events
               (writer_after_add summary step
                  (default (new_writer d) (writers w !! r)))]> (writers w) /\
    log w' = log w ++
      (markdown_call config_str, true)
      :: (make_tensor_proto_call (markdown config_str), true)
      :: summary_calls w (markdown config_str) step r.
Proof.
  intros H d summary. unfold summarize_config in H.
  rewrite mbind_eq in H. unfold get_self at 1, gets at 1 in H.
  bind_ok H E. inv_total E.
  bind_ok H E. inv_total E.
  rewrite mbind_eq in H. unfold get_summary_writer at 1, gets at 1 in H.
  rewrite mbind_eq in H. unfold not_ at 1, gets at 1 in H.
  cbn [record self writers truth] in H.
  change (truth (_summary_writer (self w)) (record _ _ (record _ _ w)))
    with (truth (_summary_writer (self w)) w) in H.
  unfold summary_calls. fold summary.
  destruct (truth (_summary_writer (self w)) w) eqn:Ht; cbn [negb] in H.
  - (* the stored writer is reused *)
    rewrite mbind_eq in H. cbn [ret] in H.
    rewrite mbind_eq in H. unfold get_summary_writer at 1, gets at 1 in H.
    cbn [record self] in H.
    bind_ok H E.
    apply add_summary_Ok in E as (r & fw & Hsw & Hr & Hin & ->).
    rewrite mbind_eq in H. unfold get_summary_writer at 1, gets at 1 in H.
    cbn [record writers] in Hr.
    cbn [record set_writers self] in H.
    rewrite Hsw in H. inv_partial H Hb.
    unfold on_writer in Hb. cbn [record set_writers writers] in Hb.
    rewrite lookup_insert_eq in Hb. inj_pair Hb.
    exists r. simpl. rewrite Hr. simpl. rewrite insert_insert_eq.
    repeat split; try assumption.
    + unfold set_summary_writer. rewrite <- Hsw. destruct (self w); reflexivity.
    + rewrite <- !List.app_assoc. reflexivity.
  - (* a writer is fetched from the cache *)
    bind_ok H E. rewrite mbind_eq in E.
    destruct (FileWriterCache_get _ _) as [[v|e] wg] eqn:Eg; [|discriminate].
    injection E as <- <-.
    inv_partial Eg Hb. cbn [record writer_cache writers] in Hb.
    rewrite mbind_eq in H. unfold get_summary_writer at 1, gets at 1 in H.
    cbn [record set_self set_summary_writer self _summary_writer] in H.
    bind_ok H E.
    apply add_summary_Ok in E as (r & fw & -> & Hr & Hin & ->).
    rewrite mbind_eq in H. unfold get_summary_writer at 1, gets at 1 in H.
    cbn [record set_writers set_self set_summary_writer self
         _summary_writer] in H.
    cbn [record set_self writers] in Hr.
    inv_partial H Hb'. unfold on_writer in Hb'.
    cbn [record set_writers set_self set_summary_writer self
         _summary_writer writers] in Hb'.
    rewrite lookup_insert_eq in Hb'. inj_pair Hb'.
    exists r. fold d in Hb.
    destruct (writer_cache w !! d) as [r0|] eqn:Hc.
    + injection Hb as -> <-. cbn [record writers] in Hr.
      simpl. rewrite Hr. simpl. rewrite insert_insert_eq.
      repeat split; try assumption.
      * symmetry. apply insert_id. assumption.
      * rewrite <- !List.app_assoc. reflexivity.
    + injection Hb as <- <-.
      cbn [record set_writer_cache set_writers writers] in Hr.
      rewrite lookup_insert_eq in Hr. injection Hr as <-.
      assert (writers w !! fresh (dom (writers w)) = None) as Hnone.
      { apply not_elem_of_dom. apply is_fresh. }
      simpl. rewrite Hnone. simpl. rewrite !insert_insert_eq.
      repeat split; try assumption. rewrite <- !List.app_assoc. reflexivity.
Qed.

Lemma saved_fs_files w step :
  files (saved_fs w step) =
    <[resolve (cwd (fs w)) (config_path (self w) step) := operative_config w]>
      (files (fs w)).
Proof.
  unfold saved_fs. simpl. rewrite fs_with_dir_cwd. f_equal.
  unfold fs_with_dir. destruct (is_directory _ _); reflexivity.
Qed.

Lemma saved_fs_open w step :
  resolve (cwd (fs w)) (config_path (self w) step)
    ∉ open_files (saved_fs w step).
Proof.
  unfold saved_fs. simpl. rewrite fs_with_dir_cwd.
  apply not_elem_of_difference. right. now apply elem_of_singleton.
Qed.

(** A run of the method that goes through: the save, then the summary if
    it is enabled. *)
Lemma after_create_session_Ok session w w' :
  after_create_session markdown session w = (Ok tt, w') ->
  exists step,
    spec_resolved_step session w = Some step /\
    makedirs_ok w = true /\
    writable (resolve (cwd (fs w)) (config_path (self w) step))
      (fs_with_dir (_output_dir (self w)) (fs w)) = true /\
    if _summarize_config (self w)
    then summarize_config markdown (operative_config w) step
           (saved_world session w step) = (Ok tt, w')
    else w' = saved_world session w step.
Proof.
  rewrite after_create_session_split.
  destruct (save_config (self w) session w) as [[[cfg step]|e] w1] eqn:E;
    [|discriminate].
  apply save_config_Ok in E as (-> & Hs & Hmk & Hw & ->).
  intros H. exists step. repeat split; try assumption.
  destruct (_summarize_config (self w)); [assumption|].
  now injection H as <-.
Qed.

Lemma after_create_session_fs session w w' :
  after_create_session markdown session w = (Ok tt, w') ->
  exists step,
    spec_resolved_step session w = Some step /\ fs w' = saved_fs w step.
Proof.
  intros H. apply after_create_session_Ok in H as (step & Hs & _ & _ & H).
  exists step. split; [assumption|].
  destruct (_summarize_config (self w)); [|now subst w'].
  apply summarize_config_within in H as [[] _]. assumption.
Qed.

(** For a base name that is a name, [os.path.join] names the file
    [filename] of the directory [output_dir], as the path string
    "{output_dir}/{filename}" does. *)
Lemma config_path_denotes cwd this step :
  has_sep (_base_name this) = false ->
  is_empty (_output_dir this) = false ->
  resolve cwd (config_path this step) =
    resolve cwd (_output_dir this +:+ "/" +:+ filename this step).
Proof.
  intros Hb Hne. pose proof (filename_plain this step Hb) as Hp.
  unfold config_path. rewrite resolve_join by assumption.
  destruct Hp as [Hsep Hlen]. unfold resolve.
  rewrite startswith_sep_append by assumption.
  change ("/" +:+ filename this step) with (String sep (filename this step)).
  rewrite split_sep_append, (split_sep_plain _ Hsep), fold_left_app. simpl.
  symmetry. apply walk_plain. now split.
Qed.

(** C1. After a call of [after_create_session] that runs to completion,
    the file at [os.path.join(output_dir, filename)] holds exactly the text
    [config.operative_config_str()] returned at the start of the call,
    whatever was at that path before, and no other file has changed. For a
    base name that is a name and a non-empty [output_dir], that file is the
    one the path string "{output_dir}/{filename}" denotes. *)
Theorem after_create_session_writes_config session w w' :
  after_create_session markdown session w = (Ok tt, w') ->
  exists step,
    spec_resolved_step session w = Some step /\
    files (fs w') !! resolve (cwd (fs w)) (config_path (self w) step)
      = Some (operative_config w) /\
    (forall q, q ≠ resolve (cwd (fs w)) (config_path (self w) step) ->
               files (fs w') !! q = files (fs w) !! q) /\
    (has_sep (_base_name (self w)) = false ->
     is_empty (_output_dir (self w)) = false ->
     resolve (cwd (fs w)) (config_path (self w) step) =
       resolve (cwd (fs w))
         (_output_dir (self w) +:+ "/" +:+ filename (self w) step)).
Proof.
  intros H. apply after_create_session_fs in H as (step & Hs & ->).
  exists step. rewrite saved_fs_files. repeat split.
  - assumption.
  - apply lookup_insert_eq.
  - intros q Hq. now apply lookup_insert_ne.
  - apply config_path_denotes.
Qed.

Lemma written_app l1 l2 : written (l1 ++ l2) = written l1 ++ written l2.
Proof. apply omap_app. Qed.

Lemma written_quiet evs :
  Forall (fun e => is_summary_call e.1 = true) evs -> written evs = [].
Proof.
  induction 1 as [|[c ok] evs Hc _ IH]; [reflexivity|].
  unfold written. simpl. destruct c; simpl in Hc; try discriminate; exact IH.
Qed.

Lemma written_save_calls session w step :
  written (save_calls session w step) = [config_path (self w) step].
Proof.
  unfold save_calls, mkdir_calls, step_calls, write_calls.
  destruct session as [sess|]; [destruct (global_step w)|];
    destruct (is_directory _ _); reflexivity.
Qed.

Lemma after_create_session_log session w w' :
  after_create_session markdown session w = (Ok tt, w') ->
  exists step evs,
    spec_resolved_step session w = Some step /\
    log w' = log w ++ save_calls session w step ++ evs /\
    Forall (fun e => is_summary_call e.1 = true) evs.
Proof.
  intros H. apply after_create_session_Ok in H as (step & Hs & _ & _ & H).
  exists step. destruct (_summarize_config (self w)).
  - apply summarize_config_within in H as [[_ _ _ _ _ _ (evs & Hl & Hq)] _].
    exists evs.
    rewrite Hl. simpl. rewrite <- List.app_assoc. auto.
  - subst w'. exists []. simpl. rewrite app_nil_r. auto.
Qed.

(** C2. A call that runs to completion writes one file, named
    [os.path.join(output_dir, name)] where [name] is
    "{base_name}-{step}.gin" for the resolved step when
    [include_step_in_filename] is true, "{base_name}-5.gin" at step 5, and
    "{base_name}.gin", whatever the step, when it is false. *)
Theorem after_create_session_filename session w w' :
  after_create_session markdown session w = (Ok tt, w') ->
  exists step evs,
    spec_resolved_step session w = Some step /\
    log w' = log w ++ evs /\
    written evs =
      [os_path_join (_output_dir (self w))
         (if _include_step_in_filename (self w)
          then _base_name (self w) +:+ "-" +:+ str_int step +:+ ".gin"
          else _base_name (self w) +:+ ".gin")] /\
    (_include_step_in_filename (self w) = true -> step = 5 ->
     written evs =
       [os_path_join (_output_dir (self w))
          (_base_name (self w) +:+ "-5.gin")]).
Proof.
  intros H. apply after_create_session_log in H as (step & evs & Hs & Hl & Hq).
  exists step, (save_calls session w step ++ evs).
  rewrite written_app, written_save_calls, (written_quiet _ Hq).
  split; [assumption|]. split; [assumption|]. split.
  - unfold config_path, filename.
    destruct (_include_step_in_filename (self w)); reflexivity.
  - intros Hi Hstep. subst step. unfold config_path, filename.
    rewrite Hi. reflexivity.
Qed.


Lemma save_calls_quiet session w step :
  Forall (fun e => is_save_call e.1 = true) (save_calls session w step).
Proof.
  unfold save_calls, mkdir_calls, step_calls, write_calls.
  destruct session as [sess|]; [destruct (global_step w)|];
    destruct (is_directory _ _); repeat constructor.
Qed.




(** C10. When a call raises from one of the calls of the summary work
    (markdown, tensor construction, [FileWriterCache.get], [add_summary],
    [flush]), the configuration file already holds the full configuration
    text and is closed: the log is the calls of the save, all successful
    and ending with [write] and [close], followed by calls of the summary
    work only. *)
Theorem summary_failure_after_write session w c w' :
  after_create_session markdown session w = (Raise (Error c), w') ->
  is_summary_call c = true ->
  exists step evs,
    spec_resolved_step session w = Some step /\
    files (fs w') !! resolve (cwd (fs w)) (config_path (self w) step)
      = Some (operative_config w) /\
    (resolve (cwd (fs w)) (config_path (self w) step)
       ∉ open_files (fs w')) /\
    log w' = log w ++ save_calls session w step ++ evs /\
    Forall (fun e => is_save_call e.1 = true /\ e.2 = true)
      (save_calls session w step) /\
    Forall (fun e => is_summary_call e.1 = true) evs.
Proof.
  rewrite after_create_session_split. intros H Hc.
  destruct (save_config (self w) session w) as [[[cfg step]|e] w1] eqn:E.
  - apply save_config_Ok in E as (-> & Hs & Hmk & Hw & ->).
    destruct (_summarize_config (self w)); [|discriminate].
    apply summarize_config_within in H
      as [[_ Hfs _ _ _ _ (evs & Hl & Hq)] _].
    exists step, evs. rewrite Hfs.
    change (fs (saved_world session w step)) with (saved_fs w step).
    split; [assumption|]. split; [|split; [|split; [|split]]].
    + rewrite saved_fs_files. apply lookup_insert_eq.
    + apply saved_fs_open.
    + rewrite Hl. simpl. now rewrite <- List.app_assoc.
    + unfold save_calls, mkdir_calls, step_calls, write_calls.
      destruct session as [sess|]; [destruct (global_step w)|];
        destruct (is_directory _ _); repeat constructor.
    + assumption.
  - injection H as -> <-.
    apply save_config_within in E as [_ He].
    destruct (He _ eq_refl) as (c' & [= <-] & Hc').
    unfold is_save_call in Hc'. rewrite Hc in Hc'. discriminate.
Qed.

Lemma save_config_commutes f this session :
  commutes (set_self f) (save_config this session).
Proof.
  unfold save_config, operative_config_str, isdir, makedirs,
    global_step_val, get_global_step, session_run, GFile, write, close.
  repeat first
    [ apply commutes_bind; [|intros ?]
    | apply commutes_finally
    | apply commutes_if
    | apply commutes_ret
    | apply commutes_extern; [reflexivity|reflexivity|];
      intros w; cbn; repeat case_match; reflexivity
    | progress case_match ].
Qed.

(** C6. With [summarize_config] unset, a call leaves the writers, the
    writer cache and the hook alone and makes no call of the summary work,
    whatever its outcome. The write still occurs: a call that returns has
    made the calls of the save, all successful, and nothing else, and
    leaves the configuration file closed with the configuration text in
    it; an exception comes from a call of the save; and the call returns
    whenever nothing fails in the environment and the save can go through.
    It occurs as with summaries on: the same call on the hook with
    [summarize_config] set leaves the same directories and the same
    configuration file, and when it returns, or raises from a call of the
    save, so does this one. *)
Theorem after_create_session_without_summary session w res w' :
  _summarize_config (self w) = false ->
  after_create_session markdown session w = (res, w') ->
  writers w' = writers w /\
  writer_cache w' = writer_cache w /\
  self w' = self w /\
  (exists evs, log w' = log w ++ evs /\
               Forall (fun e => is_summary_call e.1 = false) evs) /\
  match res with
  | Ok _ =>
      exists step,
        spec_resolved_step session w = Some step /\
        files (fs w') !! resolve (cwd (fs w)) (config_path (self w) step)
          = Some (operative_config w) /\
        (resolve (cwd (fs w)) (config_path (self w) step)
           ∉ open_files (fs w')) /\
        log w' = log w ++ save_calls session w step /\
        written (save_calls session w step) = [config_path (self w) step]
  | Raise (Error c) => is_save_call c = true
  end /\
  ((forall c, faults w c = false) ->
   makedirs_ok w = true ->
   forall step,
     spec_resolved_step session w = Some step ->
     writable (resolve (cwd (fs w)) (config_path (self w) step))
       (fs_with_dir (_output_dir (self w)) (fs w)) = true ->
     res = Ok tt) /\
  forall res_on w_on,
    after_create_session markdown session
      (set_self (set_summarize_config true) w) = (res_on, w_on) ->
    (res_on = Ok tt -> res = Ok tt) /\
    (forall c, is_save_call c = true ->
               res_on = Raise (Error c) -> res = Raise (Error c)) /\
    dirs (fs w_on) = dirs (fs w') /\
    forall step,
      files (fs w_on) !! resolve (cwd (fs w)) (config_path (self w) step) =
      files (fs w') !! resolve (cwd (fs w)) (config_path (self w) step).
Proof.
  intros Hoff H.
  rewrite after_create_session_split, Hoff in H.
  destruct (save_config (self w) session w) as [r1 u1] eqn:E.
  pose proof (save_config_within _ _ _ _ _ E)
    as [[_ _ Hws Hwc Hself _ _ (evs & Hl & Hq)] Hexn].
  assert (w' = u1) as -> by (destruct r1 as [[]|]; now injection H as _ <-).
  split; [assumption|]. split; [assumption|]. split; [assumption|].
  split.
  { exists evs. split; [assumption|].
    eapply Forall_impl; [exact Hq|]. intros [c ok]. simpl.
    unfold is_save_call. now destruct (is_summary_call c). }
  split; [|split].
  - destruct r1 as [[cfg step]|e]; injection H as <-.
    + apply save_config_Ok in E as (_ & Hstep & _ & _ & ->).
      exists step. split; [assumption|].
      change (fs (saved_world session w step)) with (saved_fs w step).
      split; [rewrite saved_fs_files; apply lookup_insert_eq|].
      split; [apply saved_fs_open|].
      split; [reflexivity|apply written_save_calls].
    + destruct (Hexn _ eq_refl) as (c & -> & Hc). exact Hc.
  - intros Hf Hmk step Hstep Hwr.
    rewrite (save_config_run session w step Hf Hmk Hstep Hwr) in E.
    injection E as <- _. now injection H as <-.
  - intros res_on w_on Hon.
    rewrite after_create_session_split in Hon.
    change (save_config (self (set_self (set_summarize_config true) w))
              session (set_self (set_summarize_config true) w))
      with (save_config (self w) session
              (set_self (set_summarize_config true) w)) in Hon.
    rewrite save_config_commutes, E in Hon. cbn [fst snd] in Hon.
    destruct r1 as [[cfg step]|e]; injection H as <-.
    + change (_summarize_config
                (self (set_self (set_summarize_config true) w)))
        with true in Hon. cbn iota in Hon.
      pose proof (summarize_config_within _ _ _ _ _ Hon)
        as [[_ Hfs _ _ _ _ _] Hexn'].
      rewrite Hfs. cbn [set_self fs].
      repeat split; try reflexivity.
      intros c Hc ->. destruct (Hexn' _ eq_refl) as (c' & [= <-] & Hc').
      unfold is_save_call in Hc. rewrite Hc' in Hc. discriminate.
    + injection Hon as <- <-. cbn [set_self fs].
      repeat split; try reflexivity; [discriminate|auto].
Qed.

Lemma ancestors_self p : p ∈ ancestors p.
Proof. destruct p; simpl; apply elem_of_cons; now left. Qed.

Lemma ancestors_length p q : q ∈ ancestors p -> (length q <= length p)%nat.
Proof.
  induction p as [|c p IH]; simpl.
  - intros ->%list_elem_of_singleton. reflexivity.
  - intros [->|H]%elem_of_cons; [reflexivity|].
    apply IH in H. simpl. lia.
Qed.

Lemma saved_fs_dirs w step :
  dirs (saved_fs w step) = dirs (fs_with_dir (_output_dir (self w)) (fs w)).
Proof. reflexivity. Qed.

(** C7. When the output directory does not exist, in a well-formed file
    system where nothing stands in the way of creating it, for a base name
    that is a name and a step lookup that has a value, and with no call made
    to fail: [makedirs] creates the directory and those above it, the
    configuration file is then written with the configuration text, and
    the log shows [makedirs] succeed before the [write]. *)
Theorem after_create_session_creates_dir session w step :
  (forall c, faults w c = false) ->
  fs_wf (fs w) ->
  has_sep (_base_name (self w)) = false ->
  resolve (cwd (fs w)) (_output_dir (self w)) ∉ dirs (fs w) ->
  (forall q, q ∈ ancestors (resolve (cwd (fs w)) (_output_dir (self w))) ->
             files (fs w) !! q = None) ->
  spec_resolved_step session w = Some step ->
  exists r w' evs,
    after_create_session markdown session w = (r, w') /\
    (forall q, q ∈ ancestors (resolve (cwd (fs w)) (_output_dir (self w))) ->
               q ∈ dirs (fs w')) /\
    files (fs w') !! resolve (cwd (fs w)) (config_path (self w) step)
      = Some (operative_config w) /\
    log w' = log w ++
      [(operative_config_str_call, true);
       (isdir_call (_output_dir (self w)), true);
       (makedirs_call (_output_dir (self w)), true)] ++
      step_calls session w ++
      [(GFile_call (config_path (self w) step) "w", true);
       (write_call (mkGFile (config_path (self w) step) "w")
          (operative_config w), true);
       (close_call (mkGFile (config_path (self w) step) "w"), true)] ++
      evs.
Proof.
  intros Hf Hwf Hbase Hdir Hfree Hstep.
  set (d := resolve (cwd (fs w)) (_output_dir (self w))) in *.
  assert (is_directory (_output_dir (self w)) (fs w) = false) as Hd.
  { unfold is_directory. fold d.
    rewrite (bool_decide_eq_false_2 _ Hdir). apply andb_false_r. }
  assert (makedirs_ok w = true) as Hmk.
  { unfold makedirs_ok. fold d. rewrite Hd. simpl.
    apply forallb_forall. intros q Hq. apply bool_decide_eq_true.
    apply Hfree. now apply list_elem_of_In. }
  assert (dirs (fs_with_dir (_output_dir (self w)) (fs w)) =
          list_to_set (ancestors d) ∪ dirs (fs w)) as Hdirs.
  { unfold fs_with_dir. rewrite Hd. reflexivity. }
  assert (writable (resolve (cwd (fs w)) (config_path (self w) step))
            (fs_with_dir (_output_dir (self w)) (fs w)) = true) as Hw.
  { unfold config_path. rewrite resolve_join by now apply filename_plain.
    fold d. unfold writable. rewrite Hdirs.
    apply andb_true_intro. split; apply bool_decide_eq_true.
    - apply elem_of_union_l, elem_of_list_to_set, ancestors_self.
    - intros [Hin|Hin]%elem_of_union.
      + apply elem_of_list_to_set, ancestors_length in Hin. simpl in Hin. lia.
      + apply Hdir. eapply Hwf. exact Hin. }
  pose proof (save_config_run session w step Hf Hmk Hstep Hw) as Hsave.
  assert (exists r w' evs,
            after_create_session markdown session w = (r, w') /\
            fs w' = saved_fs w step /\
            log w' = log w ++ save_calls session w step ++ evs)
    as (r & w' & evs & Hrun & Hfs & Hlog).
  { rewrite after_create_session_split, Hsave.
    destruct (_summarize_config (self w)).
    - destruct (summarize_config _ _ _ _) as [r w'] eqn:E.
      apply summarize_config_within in E as [[_ Hfs _ _ _ _ (evs & Hl & _)] _].
      exists r, w', evs. split; [reflexivity|]. split; [assumption|].
      rewrite Hl. simpl. now rewrite <- List.app_assoc.
    - exists (Ok tt), (saved_world session w step), [].
      rewrite app_nil_r. auto. }
  exists r, w', evs. split; [assumption|]. rewrite Hfs. split; [|split].
  - intros q Hq. rewrite saved_fs_dirs, Hdirs.
    now apply elem_of_union_l, elem_of_list_to_set.
  - rewrite saved_fs_files. apply lookup_insert_eq.
  - rewrite Hlog. unfold save_calls, mkdir_calls, write_calls.
    rewrite Hd. simpl. rewrite <- !List.app_assoc. reflexivity.
Qed.

Lemma config_markdown_frame s :
  within writer_frame (fun _ => true) (config_markdown markdown s).
Proof.
  apply within_extern; [exact _|reflexivity| |].
  - intros. now apply writer_frame_record.
  - intros w a w1 [= <- <-]. reflexivity.
Qed.

Lemma make_tensor_proto_frame s :
  within writer_frame (fun _ => true) (make_tensor_proto s).
Proof.
  apply within_extern; [exact _|reflexivity| |].
  - intros. now apply writer_frame_record.
  - intros w a w1 [= <- <-]. reflexivity.
Qed.

Lemma add_summary_frame sw s n :
  within writer_frame (fun _ => true) (add_summary sw s n).
Proof.
  apply within_extern_eff; [exact _|reflexivity| |].
  - intros. now apply writer_frame_record.
  - intros w o w1 Hb. eapply writer_frame_on_writer_eff; [|exact Hb].
    intros fw o' fw' Hfw. eapply writer_add_summary_keeps. eassumption.
Qed.

Lemma flush_frame sw : within writer_frame (fun _ => true) (flush sw).
Proof.
  apply within_extern; [exact _|reflexivity| |].
  - intros. now apply writer_frame_record.
  - intros w a w1 Hb. eapply writer_frame_on_writer; [|exact Hb]. reflexivity.
Qed.

(** Lines 120-121, whatever their outcome. *)
Lemma emit_frame summary step w r w' :
  (sw ← get_summary_writer;
   add_summary sw summary step;;
   sw ← get_summary_writer;
   flush sw) w = (r, w') ->
  writer_frame w w'.
Proof.
  intros H. eapply (within_bind writer_frame (fun _ => true)); [..|exact H].
  - apply within_gets; exact _.
  - intros sw. apply within_bind; [exact _|apply add_summary_frame|].
    intros _. apply within_bind; [exact _|apply within_gets; exact _|].
    intros sw'. apply flush_frame.
Qed.

Lemma frame_step_ok u u' :
  writer_frame u u' -> cache_ok u -> writer_live u -> step_ok u u'.
Proof.
  intros F Hok Hlive. unfold step_ok.
  split; [eapply writer_frame_cache_ok; eassumption|].
  split; [eapply writer_frame_live; eassumption|].
  destruct (writer_frame_counts _ _ F) as [Ha Hf].
  destruct (truth _ u) eqn:Ht.
  - rewrite (writer_frame_truth _ _ F Hlive), (wf_self _ _ F). auto.
  - auto.
Qed.

(** Lines 114-119 when the stored writer is falsy. *)
Lemma fetch_stage d u x u' :
  (r ← FileWriterCache_get d; modify (set_self (set_summary_writer r))) u
    = (x, u') ->
  cache_ok u ->
  (u' = record (FileWriterCache_get_call d) false u) \/
  (exists r, _summary_writer (self u') = PyRef r /\
             (exists fw, writers u' !! r = Some fw /\ truthy fw = true) /\
             cache_ok u' /\
             fetches (log u') = S (fetches (log u))).
Proof.
  intros H Hok. rewrite mbind_eq in H.
  destruct (FileWriterCache_get d u) as [[v|e] u1] eqn:E.
  2:{ injection H as <- <-. left.
      apply extern_partial in E as [[_ ->]|(? & ? & _ & _ & [=] & _)].
      reflexivity. }
  injection H as <- <-. right.
  apply extern_partial in E as [[[=] _]|(a & w1 & _ & Hb & [= <-] & ->)].
  assert (fetches (log (record (FileWriterCache_get_call d) true w1)) =
          S (fetches (log w1))) as Hcount.
  { simpl. rewrite fetches_app. unfold fetches at 2. simpl. lia. }
  destruct (writer_cache u !! d) as [r|] eqn:Hc.
  - injection Hb as <- <-. exists r. simpl.
    split; [reflexivity|]. split; [eapply Hok; eassumption|].
    split; [exact Hok|exact Hcount].
  - injection Hb as <- <-. eexists. simpl in *.
    split; [reflexivity|]. split; [|split; [|exact Hcount]].
    + rewrite lookup_insert_eq. eauto.
    + intros d0 r0. unfold cache_ok in Hok. simpl.
      destruct (decide (d = d0)) as [->|Hne].
      * rewrite lookup_insert_eq. intros [= <-].
        rewrite lookup_insert_eq. eauto.
      * rewrite lookup_insert_ne by assumption. intros Hr0.
        destruct (Hok _ _ Hr0) as (fw & Hfw & Ht). exists fw.
        split; [|assumption]. rewrite lookup_insert_ne; [assumption|].
        intros <-. apply (is_fresh (dom (writers u))), elem_of_dom. eauto.
Qed.

Lemma summarize_step config_str step u r u' :
  summarize_config markdown config_str step u = (r, u') ->
  cache_ok u -> writer_live u -> step_ok u u'.
Proof.
  intros H Hok Hlive. unfold summarize_config in H.
  rewrite mbind_eq in H. unfold get_self at 1, gets at 1 in H.
  rewrite mbind_eq in H.
  destruct (config_markdown _ _ u) as [[md|e] u1] eqn:E1;
    apply config_markdown_frame in E1 as [F1 _].
  2:{ injection H as <- <-. now apply frame_step_ok. }
  rewrite mbind_eq in H.
  destruct (make_tensor_proto _ u1) as [[t|e] u2] eqn:E2;
    apply make_tensor_proto_frame in E2 as [F2 _].
  2:{ injection H as <- <-. apply frame_step_ok; [etrans|..]; eassumption. }
  assert (writer_frame u u2) as F by (etrans; eassumption). clear F1 F2.
  rewrite mbind_eq in H. unfold get_summary_writer at 1, gets at 1 in H.
  rewrite mbind_eq in H. unfold not_ at 1, gets at 1 in H.
  rewrite (writer_frame_truth _ _ F Hlive) in H.
  destruct (truth (_summary_writer (self u)) u) eqn:Ht; cbn [negb] in H.
  - rewrite mbind_eq in H. cbn [ret] in H.
    apply emit_frame in H.
    apply frame_step_ok; [etrans|..]; eassumption.
  - rewrite mbind_eq in H.
    match type of H with
    | context [match ?m u2 with _ => _ end] =>
        destruct (m u2) as [x u3] eqn:E3
    end.
    pose proof (writer_frame_cache_ok _ _ F Hok) as Hok2.
    pose proof (writer_frame_live _ _ F Hlive) as Hlive2.
    destruct (writer_frame_counts _ _ F) as [_ Hf2].
    apply fetch_stage in E3; [|exact Hok2].
    destruct E3 as [->|(r0 & Hsw & (fw & Hfw & Htr) & Hok3 & Hc3)].
    + (* the fetch raised *)
      unfold step_ok. rewrite Ht.
      destruct x as [[]|e]; [|injection H as <- <-].
      * apply emit_frame in H.
        assert (writer_live (record (FileWriterCache_get_call
                  (_output_dir (self u))) false u2)) as Hl3 by exact Hlive2.
        split; [eapply writer_frame_cache_ok; [exact H|exact Hok2]|].
        split; [eapply writer_frame_live; [exact H|exact Hl3]|].
        left. destruct (writer_frame_counts _ _ H) as [_ ->]. simpl.
        rewrite fetches_app. unfold fetches at 2. simpl. lia.
      * split; [exact Hok2|]. split; [exact Hlive2|].
        left. simpl. rewrite fetches_app. unfold fetches at 2. simpl. lia.
    + (* a writer was fetched and stored *)
      assert (writer_frame u3 u') as F3.
      { destruct x as [[]|e]; [now apply emit_frame in H|].
        injection H as <- <-. reflexivity. }
      unfold step_ok. rewrite Ht.
      split; [eapply writer_frame_cache_ok; eassumption|].
      assert (_summary_writer (self u') = PyRef r0) as Hsw'
        by (now rewrite (wf_self _ _ F3)).
      destruct (wf_writers _ _ F3 _ _ Hfw) as (fw' & Hfw' & Ht').
      split.
      { unfold writer_live. rewrite Hsw'. eauto. }
      right. destruct (writer_frame_counts _ _ F3) as [_ ->].
      split; [lia|]. rewrite Hsw'. unfold truth. rewrite Hfw'. congruence.
Qed.

Lemma step_ok_after_frame u u1 u' :
  writer_frame u u1 -> writer_live u -> step_ok u1 u' -> step_ok u u'.
Proof.
  intros F Hlive (Hok' & Hlive' & H). unfold step_ok.
  split; [assumption|]. split; [assumption|].
  rewrite (writer_frame_truth _ _ F Hlive) in H.
  destruct (writer_frame_counts _ _ F) as [Ha Hf].
  rewrite (wf_self _ _ F), Ha, Hf in H. exact H.
Qed.

Lemma call_step_ok session u :
  cache_ok u -> writer_live u ->
  step_ok u (after_create_session markdown session u).2.
Proof.
  intros Hok Hlive. rewrite after_create_session_split.
  destruct (save_config (self u) session u) as [r1 u1] eqn:E.
  apply save_config_within in E as [F%save_frame_writer_frame _].
  destruct r1 as [[cfg step]|e]; [|now apply frame_step_ok].
  destruct (_summarize_config (self u)); [|now apply frame_step_ok].
  destruct (summarize_config _ _ _ u1) as [r u'] eqn:E'.
  apply summarize_step in E'.
  - eapply step_ok_after_frame; eassumption.
  - eapply writer_frame_cache_ok; eassumption.
  - eapply writer_frame_live; eassumption.
Qed.

Lemma hook_step_ok u u' :
  hook_step markdown u u' -> cache_ok u -> writer_live u -> step_ok u u'.
Proof.
  intros [session w|w w' Hself Hlog Hws Hok'] Hok Hlive;
    [now apply call_step_ok|].
  unfold step_ok, writer_live, truth in *. rewrite Hself, Hlog.
  split; [assumption|].
  destruct (_summary_writer (self w)) as [|r]; [auto|].
  destruct Hlive as [fw Hfw]. destruct (Hws _ _ Hfw) as (fw' & Hfw' & Ht).
  rewrite Hfw, Hfw', Ht. split; [eauto|].
  destruct (truthy fw); auto.
Qed.

(** Once the stored writer is truthy it stays, and the cache is left
    alone. *)
Lemma truthy_writer_kept u u' :
  cache_ok u -> writer_live u ->
  truth (_summary_writer (self u)) u = true ->
  rtc (hook_step markdown) u u' ->
  cache_ok u' /\ writer_live u' /\
  _summary_writer (self u') = _summary_writer (self u) /\
  truth (_summary_writer (self u')) u' = true /\
  fetch_attempts (log u') = fetch_attempts (log u) /\
  fetches (log u') = fetches (log u).
Proof.
  intros Hok Hlive Ht Hsteps.
  revert u' Hsteps. apply rtc_ind_r; [auto 6|].
  intros v v' Hrtc Hstep IH.
  destruct IH as (Hok' & Hlive' & Hsw & Htr & Hat & Hfe).
  apply hook_step_ok in Hstep as (Hok'' & Hlive'' & Hs);
    [|assumption|assumption].
  rewrite Htr in Hs. destruct Hs as (Hsw' & Htr' & Hat' & Hfe').
  repeat split; try assumption; congruence.
Qed.

Lemma fetches_bounded u u' :
  cache_ok u -> writer_live u ->
  rtc (hook_step markdown) u u' ->
  (fetches (log u') <= S (fetches (log u)))%nat.
Proof.
  intros Hok Hlive Hsteps.
  cut (cache_ok u' /\ writer_live u' /\
       (fetches (log u') = fetches (log u) \/
        (fetches (log u') = S (fetches (log u)) /\
         truth (_summary_writer (self u')) u' = true))).
  { intros (_ & _ & [->| [-> _]]); lia. }
  revert u' Hsteps. apply rtc_ind_r; [auto|].
  intros v v' Hrtc Hstep IH.
  destruct IH as (Hok' & Hlive' & Hcount).
  apply hook_step_ok in Hstep as (Hok'' & Hlive'' & Hs);
    [|assumption|assumption].
  split; [assumption|]. split; [assumption|].
  destruct (truth (_summary_writer (self v)) v) eqn:Htu.
  - destruct Hs as (_ & Htr' & _ & Hf'). rewrite Hf'.
    destruct Hcount as [->|[-> _]]; auto.
  - destruct Hcount as [Hc|[_ Hc]]; [|discriminate].
    rewrite Hc in Hs. exact Hs.
Qed.

Ltac count_log :=
  simpl; rewrite ?fetches_app, ?fetch_attempts_app;
  unfold fetches, fetch_attempts; simpl; lia.

(** Lines 104-121 when the stored writer is falsy, whatever their outcome:
    either no writer has come out of the cache and the call has raised, or
    the writer the cache holds for the directory is in [_summary_writer]
    from line 118 on. *)
Lemma summarize_falsy config_str step u res u' :
  summarize_config markdown config_str step u = (res, u') ->
  cache_ok u -> writer_live u ->
  truth (_summary_writer (self u)) u = false ->
  (fetches (log u') = fetches (log u) /\ self u' = self u /\
   res <> Ok tt) \/
  (exists r,
     r = default (fresh (dom (writers u)))
           (writer_cache u !! _output_dir (self u)) /\
     writer_cache u' !! _output_dir (self u) = Some r /\
     _summary_writer (self u') = PyRef r /\
     truth (PyRef r) u' = true /\
     fetch_attempts (log u') = S (fetch_attempts (log u)) /\
     fetches (log u') = S (fetches (log u)) /\
     cache_ok u' /\ writer_live u').
Proof.
  intros H Hok Hlive Ht. unfold summarize_config in H.
  rewrite mbind_eq in H. unfold get_self at 1, gets at 1 in H.
  rewrite mbind_eq in H.
  destruct (config_markdown _ _ u) as [[md|e] u1] eqn:E1; inv_total E1.
  2:{ injection H as <- <-. left. repeat split; [count_log|discriminate]. }
  rewrite mbind_eq in H.
  destruct (make_tensor_proto _ _) as [[t|e] u2] eqn:E2; inv_total E2.
  2:{ injection H as <- <-. left. repeat split; [count_log|discriminate]. }
  rewrite mbind_eq in H. unfold get_summary_writer at 1, gets at 1 in H.
  rewrite mbind_eq in H. unfold not_ at 1, gets at 1 in H.
  cbn [record self writers truth] in H.
  change (truth (_summary_writer (self u)) (record _ _ (record _ _ u)))
    with (truth (_summary_writer (self u)) u) in H.
  rewrite Ht in H. cbn [negb] in H.
  set (u2 := record _ true (record _ true u)) in *.
  set (d := _output_dir (self u)) in *.
  rewrite !mbind_eq in H.
  destruct (FileWriterCache_get d u2) as [[v|e] ug] eqn:Eg.
  2:{ injection H as <- <-. left.
      apply extern_partial in Eg as [[_ ->]|(? & ? & _ & _ & [=] & _)].
      repeat split; [subst u2; count_log|discriminate]. }
  apply extern_partial in Eg as [[[=] _]|(a & w1 & _ & Hb & [= <-] & ->)].
  unfold modify in H.
  set (u3 := set_self (set_summary_writer v)
               (record (FileWriterCache_get_call d) true w1)) in *.
  pose proof (emit_frame _ _ _ _ _ H) as F3.
  clear H. right.
  set (r := default (fresh (dom (writers u))) (writer_cache u !! d)).
  assert (v = PyRef r /\ writer_cache u3 !! d = Some r /\
          (exists fw, writers u3 !! r = Some fw /\ truthy fw = true) /\
          cache_ok u3 /\
          fetch_attempts (log u3) = S (fetch_attempts (log u)) /\
          fetches (log u3) = S (fetches (log u)))
    as (-> & Hc3 & (fw & Hfw & Htr) & Hok3 & Hat3 & Hfe3).
  { subst r u3. cbn [u2 record writer_cache writers] in Hb.
    destruct (writer_cache u !! d) as [r0|] eqn:Hc.
    - injection Hb as <- <-. simpl.
      split; [reflexivity|]. split; [exact Hc|].
      split; [eapply Hok; eassumption|].
      split; [exact Hok|]. split; count_log.
    - injection Hb as <- <-. cbn [default].
      split; [reflexivity|]. split; [apply lookup_insert_eq|].
      split; [simpl; rewrite lookup_insert_eq; eauto|].
      split; [|split; count_log].
      intros d0 r0. simpl.
      destruct (decide (d = d0)) as [->|Hne].
      + rewrite lookup_insert_eq. intros [= <-].
        rewrite lookup_insert_eq. eauto.
      + rewrite lookup_insert_ne by assumption. intros Hr0.
        destruct (Hok _ _ Hr0) as (fw & Hfw & Ht'). exists fw.
        split; [|assumption]. rewrite lookup_insert_ne; [assumption|].
        intros <-. apply (is_fresh (dom (writers u))), elem_of_dom. eauto. }
  exists r. split; [reflexivity|].
  destruct (wf_writers _ _ F3 _ _ Hfw) as (fw' & Hfw' & Ht').
  destruct (writer_frame_counts _ _ F3) as [-> ->].
  assert (_summary_writer (self u') = PyRef r) as Hsw'
    by (now rewrite (wf_self _ _ F3)).
  split; [now rewrite (wf_cache _ _ F3)|]. split; [assumption|].
  split; [unfold truth; rewrite Hfw'; congruence|].
  split; [assumption|]. split; [assumption|].
  split; [eapply writer_frame_cache_ok; eassumption|].
  unfold writer_live. rewrite Hsw'. eauto.
Qed.

(** C9. For a hook with summaries on whose stored writer is falsy, None
    or a falsy object alike, and a call that returns or at least gets a
    writer out of the cache (it may raise after line 118): the writer
    [FileWriterCache.get(output_dir)] gave, the one the cache holds for the
    directory, is in [_summary_writer] and is truthy; that call made the
    one fetch; the next call uses the same writer and does not call
    [FileWriterCache.get], and neither does any call after it, whatever
    happens in between. Whenever the stored writer of a hook is truthy, it
    stays the same object and the cache is never asked; over the life of
    the hook at most one call of [FileWriterCache.get] returns a writer. *)
Theorem summary_writer_fetched_once session w res w1 session2 res2 w2 :
  cache_ok w -> writer_live w ->
  _summarize_config (self w) = true ->
  truth (_summary_writer (self w)) w = false ->
  after_create_session markdown session w = (res, w1) ->
  res = Ok tt \/ fetches (log w1) <> fetches (log w) ->
  after_create_session markdown session2 w1 = (res2, w2) ->
  exists r,
    r = default (fresh (dom (writers w)))
          (writer_cache w !! _output_dir (self w)) /\
    writer_cache w1 !! _output_dir (self w) = Some r /\
    _summary_writer (self w1) = PyRef r /\
    truth (PyRef r) w1 = true /\
    fetch_attempts (log w1) = S (fetch_attempts (log w)) /\
    fetches (log w1) = S (fetches (log w)) /\
    _summary_writer (self w2) = PyRef r /\
    fetch_attempts (log w2) = fetch_attempts (log w1) /\
    (forall w3,
       rtc (hook_step markdown) w1 w3 ->
       _summary_writer (self w3) = PyRef r /\
       truth (PyRef r) w3 = true /\
       fetch_attempts (log w3) = fetch_attempts (log w1)) /\
    (forall u u',
       cache_ok u -> writer_live u ->
       truth (_summary_writer (self u)) u = true ->
       rtc (hook_step markdown) u u' ->
       _summary_writer (self u') = _summary_writer (self u) /\
       truth (_summary_writer (self u')) u' = true /\
       fetch_attempts (log u') = fetch_attempts (log u)) /\
    (forall w3,
       rtc (hook_step markdown) w w3 ->
       (fetches (log w3) <= S (fetches (log w)))%nat).
Proof.
  intros Hok Hlive Hsum Ht H1 Hgot H2.
  assert (exists r,
     r = default (fresh (dom (writers w)))
           (writer_cache w !! _output_dir (self w)) /\
     writer_cache w1 !! _output_dir (self w) = Some r /\
     _summary_writer (self w1) = PyRef r /\
     truth (PyRef r) w1 = true /\
     fetch_attempts (log w1) = S (fetch_attempts (log w)) /\
     fetches (log w1) = S (fetches (log w)) /\
     cache_ok w1 /\ writer_live w1)
    as (r & Hr & Hc1 & Hsw1 & Htr1 & Hat1 & Hfe1 & Hok1 & Hlive1).
  { rewrite after_create_session_split in H1.
    destruct (save_config (self w) session w) as [r1 u1] eqn:E.
    apply save_config_within in E as [F _].
    pose proof (save_frame_writer_frame _ _ F) as Fw.
    destruct (writer_frame_counts _ _ Fw) as [Hat Hfe].
    destruct r1 as [[cfg step]|e].
    2:{ injection H1 as <- <-. destruct Hgot as [[=]|Hgot].
        now destruct Hgot. }
    rewrite Hsum in H1.
    apply summarize_falsy in H1;
      [|eapply writer_frame_cache_ok; eassumption
       |eapply writer_frame_live; eassumption
       |now rewrite (writer_frame_truth _ _ Fw Hlive)].
    destruct H1 as [(Hsame & _ & Hres)|(r & H1)].
    { destruct Hgot as [Hgot|Hgot]; [contradiction|].
      destruct Hgot. congruence. }
    exists r. rewrite (sf_writers _ _ F), (sf_cache _ _ F), (sf_self _ _ F),
      Hat, Hfe in H1. exact H1. }
  exists r. split; [assumption|]. split; [assumption|].
  split; [assumption|]. split; [assumption|]. split; [assumption|].
  split; [assumption|].
  assert (truth (_summary_writer (self w1)) w1 = true) as Htr1'
    by now rewrite Hsw1.
  assert (forall w3, rtc (hook_step markdown) w1 w3 ->
            _summary_writer (self w3) = PyRef r /\
            truth (PyRef r) w3 = true /\
            fetch_attempts (log w3) = fetch_attempts (log w1)) as Hlater.
  { intros w3 Hsteps.
    destruct (truthy_writer_kept _ _ Hok1 Hlive1 Htr1' Hsteps)
      as (_ & _ & Hsw3 & Htr3 & Hat3 & _).
    rewrite Hsw1 in Hsw3. rewrite Hsw3 in Htr3. auto. }
  assert (rtc (hook_step markdown) w1 w2) as Hcall.
  { apply rtc_once.
    replace w2 with (after_create_session markdown session2 w1).2
      by now rewrite H2.
    constructor. }
  destruct (Hlater _ Hcall) as (Hsw2 & _ & Hat2).
  split; [assumption|]. split; [assumption|]. split; [assumption|].
  split.
  - intros u u' Hu1 Hu2 Hu3 Hsteps.
    destruct (truthy_writer_kept _ _ Hu1 Hu2 Hu3 Hsteps)
      as (_ & _ & ? & ? & ? & _). auto.
  - intros w3. now apply fetches_bounded.
Qed.

End facts.

(** *** The theorems on a concrete run *)

Lemma after_create_session_writes_config_witness :
  after_create_session markdown_ex (Some session_ex) world_ex
    = (Ok tt, done_ex) /\
  exists step,
    spec_resolved_step (Some session_ex) world_ex = Some step /\
    files (fs done_ex)
      !! resolve (cwd (fs world_ex)) (config_path (self world_ex) step)
      = Some (operative_config world_ex) /\
    (forall q,
       q ≠ resolve (cwd (fs world_ex)) (config_path (self world_ex) step) ->
       files (fs done_ex) !! q = files (fs world_ex) !! q) /\
    (has_sep (_base_name (self world_ex)) = false ->
     is_empty (_output_dir (self world_ex)) = false ->
     resolve (cwd (fs world_ex)) (config_path (self world_ex) step) =
       resolve (cwd (fs world_ex))
         (_output_dir (self world_ex) +:+ "/"
            +:+ filename (self world_ex) step)).
Proof.
  split; [vm_compute; reflexivity|].
  apply (after_create_session_writes_config markdown_ex (Some session_ex)
           world_ex done_ex).
  vm_compute. reflexivity.
Defined.

(** A falsy object passed as [summary_writer] is left untouched: the
    record goes to the writer of the cache. *)
Lemma falsy_writer_replaced :
  let w' := (after_create_session markdown_ex (Some session_ex)
               world_falsy).2 in
  _summary_writer (self w') = PyRef 4%nat /\
  writer_cache w' !! "/tmp/run1" = Some 4%nat /\
  writers w' !! 3%nat = Some (mkFileWriter "elsewhere" false [] [] ∅) /\
  (flushed <$> writers w' !! 4%nat) = Some [(summary_ex, 5)].
Proof. vm_compute. repeat split; reflexivity. Qed.

Lemma after_create_session_filename_witness :
  after_create_session markdown_ex (Some session_ex) world_ex
    = (Ok tt, done_ex) /\
  exists step evs,
    spec_resolved_step (Some session_ex) world_ex = Some step /\
    log done_ex = log world_ex ++ evs /\
    written evs =
      [os_path_join "/tmp/run1"
         ("operative_config" +:+ "-" +:+ str_int step +:+ ".gin")] /\
    (true = true -> step = 5 ->
     written evs =
       [os_path_join "/tmp/run1" ("operative_config" +:+ "-5.gin")]).
Proof.
  split; [vm_compute; reflexivity|].
  apply (after_create_session_filename markdown_ex (Some session_ex)
           world_ex done_ex).
  vm_compute. reflexivity.
Defined.



Lemma after_create_session_without_summary_witness :
  _summarize_config (self world_off) = false /\
  after_create_session markdown_ex (Some session_ex) world_off
    = (Ok tt, done_off) /\
  files (fs done_off) !! ["operative_config-5.gin"; "run1"; "tmp"]
    = Some "a = 1" /\
  writers done_off = writers world_off /\
  writer_cache done_off = writer_cache world_off /\
  self done_off = self world_off /\
  (exists evs, log done_off = log world_off ++ evs /\
               Forall (fun e => is_summary_call e.1 = false) evs) /\
  (exists step,
     spec_resolved_step (Some session_ex) world_off = Some step /\
     files (fs done_off)
       !! resolve (cwd (fs world_off)) (config_path (self world_off) step)
       = Some (operative_config world_off) /\
     (resolve (cwd (fs world_off)) (config_path (self world_off) step)
        ∉ open_files (fs done_off)) /\
     log done_off = log world_off
       ++ save_calls (Some session_ex) world_off step /\
     written (save_calls (Some session_ex) world_off step)
       = [config_path (self world_off) step]) /\
  ((forall c, faults world_off c = false) ->
   makedirs_ok world_off = true ->
   forall step,
     spec_resolved_step (Some session_ex) world_off = Some step ->
     writable
       (resolve (cwd (fs world_off)) (config_path (self world_off) step))
       (fs_with_dir (_output_dir (self world_off)) (fs world_off)) = true ->
     Ok tt = Ok tt :> outcome exn unit) /\
  forall res_on w_on,
    after_create_session markdown_ex (Some session_ex)
      (set_self (set_summarize_config true) world_off) = (res_on, w_on) ->
    (res_on = Ok tt -> Ok tt = Ok tt :> outcome exn unit) /\
    (forall c, is_save_call c = true ->
               res_on = Raise (Error c) -> Ok tt = Raise (Error c)) /\
    dirs (fs w_on) = dirs (fs done_off) /\
    forall step,
      files (fs w_on)
        !! resolve (cwd (fs world_off)) (config_path (self world_off) step) =
      files (fs done_off)
        !! resolve (cwd (fs world_off)) (config_path (self world_off) step).
Proof.
  split; [reflexivity|]. split; [vm_compute; reflexivity|].
  split; [vm_compute; reflexivity|].
  apply (after_create_session_without_summary markdown_ex (Some session_ex)
           world_off (Ok tt) done_off).
  - reflexivity.
  - vm_compute. reflexivity.
Defined.

Lemma fs_ex_wf : fs_wf fs_ex.
Proof.
  intros c p. unfold fs_ex. simpl.
  rewrite !elem_of_union, !elem_of_singleton.
  intros [[=]|[= _ <-]]. now left.
Qed.

Lemma after_create_session_creates_dir_witness :
  (forall c, faults world_ex c = false) /\
  fs_wf (fs world_ex) /\
  has_sep (_base_name (self world_ex)) = false /\
  (resolve (cwd (fs world_ex)) (_output_dir (self world_ex))
     ∉ dirs (fs world_ex)) /\
  (forall q,
     q ∈ ancestors (resolve (cwd (fs world_ex)) (_output_dir (self world_ex)))
     -> files (fs world_ex) !! q = None) /\
  spec_resolved_step (Some session_ex) world_ex = Some 5 /\
  exists r w' evs,
    after_create_session markdown_ex (Some session_ex) world_ex = (r, w') /\
    (forall q,
       q ∈ ancestors (resolve (cwd (fs world_ex))
                        (_output_dir (self world_ex))) ->
       q ∈ dirs (fs w')) /\
    files (fs w') !! resolve (cwd (fs world_ex))
                       (config_path (self world_ex) 5)
      = Some (operative_config world_ex) /\
    log w' = log world_ex ++
      [(operative_config_str_call, true);
       (isdir_call (_output_dir (self world_ex)), true);
       (makedirs_call (_output_dir (self world_ex)), true)] ++
      step_calls (Some session_ex) world_ex ++
      [(GFile_call (config_path (self world_ex) 5) "w", true);
       (write_call (mkGFile (config_path (self world_ex) 5) "w")
          (operative_config world_ex), true);
       (close_call (mkGFile (config_path (self world_ex) 5) "w"), true)] ++
      evs.
Proof.
  assert (resolve (cwd (fs world_ex)) (_output_dir (self world_ex))
            ∉ dirs (fs world_ex)) as Hdir.
  { eapply bool_decide_eq_false_1. vm_compute. reflexivity. }
  repeat match goal with |- _ /\ _ => split end;
    [reflexivity | exact fs_ex_wf | reflexivity | exact Hdir
    | intros q _; apply lookup_empty | reflexivity | ].
  apply (after_create_session_creates_dir markdown_ex (Some session_ex)
           world_ex 5);
    [reflexivity | exact fs_ex_wf | reflexivity | exact Hdir
    | intros q _; apply lookup_empty | reflexivity].
Defined.

Lemma world_ex_cache_ok : cache_ok world_ex.
Proof. intros d r H. simpl in H. now rewrite lookup_empty in H. Qed.

Lemma world_cached_cache_ok : cache_ok world_cached.
Proof.
  intros d r H. simpl in H. apply lookup_singleton_Some in H as [<- <-].
  eexists. split; [vm_compute; reflexivity|reflexivity].
Qed.

Lemma world_cached_live : writer_live world_cached.
Proof. eexists. vm_compute. reflexivity. Qed.

Lemma summary_writer_fetched_once_witness :
  cache_ok world_cached /\ writer_live world_cached /\
  _summarize_config (self world_cached) = true /\
  _summary_writer (self world_cached) = PyRef 3%nat /\
  truth (_summary_writer (self world_cached)) world_cached = false /\
  after_create_session markdown_ex (Some session_ex) world_cached
    = (Ok tt, done_cached) /\
  after_create_session markdown_ex None done_cached
    = (Ok tt, done_cached_again) /\
  exists r,
    r = default (fresh (dom (writers world_cached)))
          (writer_cache world_cached !! _output_dir (self world_cached)) /\
    writer_cache done_cached !! _output_dir (self world_cached) = Some r /\
    _summary_writer (self done_cached) = PyRef r /\
    truth (PyRef r) done_cached = true /\
    fetch_attempts (log done_cached)
      = S (fetch_attempts (log world_cached)) /\
    fetches (log done_cached) = S (fetches (log world_cached)) /\
    _summary_writer (self done_cached_again) = PyRef r /\
    fetch_attempts (log done_cached_again)
      = fetch_attempts (log done_cached) /\
    (forall w3,
       rtc (hook_step markdown_ex) done_cached w3 ->
       _summary_writer (self w3) = PyRef r /\
       truth (PyRef r) w3 = true /\
       fetch_attempts (log w3) = fetch_attempts (log done_cached)) /\
    (forall u u',
       cache_ok u -> writer_live u ->
       truth (_summary_writer (self u)) u = true ->
       rtc (hook_step markdown_ex) u u' ->
       _summary_writer (self u') = _summary_writer (self u) /\
       truth (_summary_writer (self u')) u' = true /\
       fetch_attempts (log u') = fetch_attempts (log u)) /\
    (forall w3,
       rtc (hook_step markdown_ex) world_cached w3 ->
       (fetches (log w3) <= S (fetches (log world_cached)))%nat).
Proof.
  split; [exact world_cached_cache_ok|]. split; [exact world_cached_live|].
  split; [reflexivity|]. split; [reflexivity|].
  split; [vm_compute; reflexivity|].
  split; [vm_compute; reflexivity|]. split; [vm_compute; reflexivity|].
  apply (summary_writer_fetched_once markdown_ex (Some session_ex)
           world_cached (Ok tt) done_cached None (Ok tt) done_cached_again);
    [ exact world_cached_cache_ok | exact world_cached_live | reflexivity
    | vm_compute; reflexivity | vm_compute; reflexivity
    | left; reflexivity | vm_compute; reflexivity ].
Defined.

Lemma summary_failure_after_write_witness :
  after_create_session markdown_ex (Some session_ex) world_faulty
    = (Raise (Error (add_summary_call (PyRef 0%nat) summary_ex 5)),
       done_faulty) /\
  is_summary_call (add_summary_call (PyRef 0%nat) summary_ex 5) = true /\
  exists step evs,
    spec_resolved_step (Some session_ex) world_faulty = Some step /\
    files (fs done_faulty)
      !! resolve (cwd (fs world_faulty)) (config_path (self world_faulty) step)
      = Some (operative_config world_faulty) /\
    (resolve (cwd (fs world_faulty)) (config_path (self world_faulty) step)
       ∉ open_files (fs done_faulty)) /\
    log done_faulty =
      log world_faulty ++ save_calls (Some session_ex) world_faulty step
        ++ evs /\
    Forall (fun e => is_save_call e.1 = true /\ e.2 = true)
      (save_calls (Some session_ex) world_faulty step) /\
    Forall (fun e => is_summary_call e.1 = true) evs.
Proof.
  split; [vm_compute; reflexivity|]. split; [reflexivity|].
  apply (summary_failure_after_write markdown_ex (Some session_ex)
           world_faulty (add_summary_call (PyRef 0%nat) summary_ex 5)
           done_faulty).
  - vm_compute. reflexivity.
  - reflexivity.
Defined.

End HookFacts.

(** ** More about [singleton_per_graph] *)

Module SingletonMore.
Import Singleton SingletonFacts.

(** X1. Given the registry contract of [config.singleton_value], the key
    built on line 36 separates configuration scopes as well as graphs:
    under one graph and two distinct scope strings, neither of which has an
    instance yet, the constructor is invoked once for each scope, the two
    results are stored under two keys, and going back to the first scope
    serves the first instance again without a further invocation. *)
Theorem singleton_per_graph_distinct_scopes
    (c : callable) (w : World) (s2 : string) v1 w1 v2 w2 :
  scope w ≠ s2 ->
  _SINGLETONS w !! (scope w, default_graph w) = None ->
  _SINGLETONS w !! (s2, default_graph w) = None ->
  singleton_per_graph c w = (Ok v1, w1) ->
  singleton_per_graph c (set_scope s2 w1) = (Ok v2, w2) ->
  invocations w1 = S (invocations w) /\
  invocations w2 = S (invocations w1) /\
  _SINGLETONS w2 !! (scope w, default_graph w) = Some v1 /\
  _SINGLETONS w2 !! (s2, default_graph w) = Some v2 /\
  forall c' : callable,
    singleton_per_graph c' (set_scope (scope w) w2)
      = (Ok v1, set_scope (scope w) w2).
Proof.
  intros Hs H1 H2 Hc1 Hc2.
  rewrite singleton_per_graph_unfold, H1 in Hc1.
  destruct (c (heap w)) as [[u1|e1] h1] eqn:Hr1; [|discriminate].
  injection Hc1 as -> <-.
  rewrite singleton_per_graph_unfold in Hc2. simpl in Hc2.
  rewrite lookup_insert_ne, H2 in Hc2 by congruence.
  destruct (c h1) as [[u2|e2] h2] eqn:Hr2; [|discriminate].
  injection Hc2 as -> <-. simpl.
  assert (<[(s2, default_graph w) := v2]>
            (<[(scope w, default_graph w) := v1]> (_SINGLETONS w))
          !! (scope w, default_graph w) = Some v1) as Hk.
  { rewrite lookup_insert_ne by congruence. apply lookup_insert_eq. }
  repeat split.
  - exact Hk.
  - apply lookup_insert_eq.
  - intros c'. rewrite singleton_per_graph_unfold. simpl. now rewrite Hk.
Qed.

Lemma singleton_per_graph_distinct_scopes_witness :
  scope w0 ≠ "eval" /\
  _SINGLETONS w0 !! (scope w0, default_graph w0) = None /\
  _SINGLETONS w0 !! ("eval", default_graph w0) = None /\
  singleton_per_graph new_object w0 = (Ok 0%nat, w0_graph0) /\
  singleton_per_graph new_object (set_scope "eval" w0_graph0)
    = (Ok 1%nat, w0_eval) /\
  invocations w0_graph0 = S (invocations w0) /\
  invocations w0_eval = S (invocations w0_graph0) /\
  _SINGLETONS w0_eval !! (scope w0, default_graph w0) = Some 0%nat /\
  _SINGLETONS w0_eval !! ("eval", default_graph w0) = Some 1%nat /\
  forall c' : callable,
    singleton_per_graph c' (set_scope (scope w0) w0_eval)
      = (Ok 0%nat, set_scope (scope w0) w0_eval).
Proof.
  split; [discriminate|]. split; [reflexivity|]. split; [reflexivity|].
  split; [reflexivity|]. split; [reflexivity|].
  apply (singleton_per_graph_distinct_scopes new_object w0 "eval"
           0%nat w0_graph0 1%nat w0_eval);
    [discriminate | reflexivity | reflexivity | reflexivity | reflexivity].
Defined.

End SingletonMore.

(** ** More about [GinConfigSaverHook] *)

Module HookMore.
Import Hook HookFacts.
#[local] Existing Instance save_frame_preorder.
#[local] Existing Instance summary_frame_preorder.
#[local] Existing Instance writer_frame_preorder.

Ltac inj_pair H := first [injection H as <- <- | injection H as <-].

Ltac inv_total E :=
  apply extern_total in E as [[E ->]|(? & E & ->)];
  first [ discriminate E | injection E as ->
        | match type of E with ?x = _ => is_var x; subst x end
        | clear E ].

Ltac inv_partial E Hb :=
  apply extern_partial in E as [[E ->]|(? & ? & ? & Hb & E & ->)];
  first [ discriminate E | injection E as <-
        | match type of E with ?x = _ => is_var x; subst x end
        | clear E ].

(** Splits on the outcome of the first computation of a bind. *)
Ltac bind_any H E :=
  rewrite mbind_eq in H;
  match type of H with
  | context [match ?m ?w with _ => _ end] =>
      destruct (m w) as [[?|?] ?] eqn:E
  end.

(** *** File names and paths *)

Lemma append_inj_r t s1 s2 : s1 +:+ t = s2 +:+ t -> s1 = s2.
Proof.
  revert s2. induction s1 as [|c s1 IH]; intros [|c2 s2] H.
  - reflexivity.
  - apply (f_equal String.length) in H.
    rewrite append_String, append_empty_l in H.
    cbn [String.length] in H. rewrite length_append in H. lia.
  - apply (f_equal String.length) in H.
    rewrite append_String, append_empty_l in H.
    cbn [String.length] in H. rewrite length_append in H. lia.
  - rewrite !append_String in H. injection H as -> H.
    now rewrite (IH _ H).
Qed.

Lemma filename_step_inj this s1 s2 :
  _include_step_in_filename this = true ->
  filename this s1 = filename this s2 -> s1 = s2.
Proof.
  unfold filename. intros -> H.
  apply (inj (String.app _)) in H.
  apply (inj (String.app _)) in H.
  apply append_inj_r in H.
  now apply (inj pretty) in H.
Qed.

Lemma startswith_sep_filename this step :
  startswith_sep (filename this step) = startswith_sep (_base_name this).
Proof.
  unfold filename.
  destruct (_base_name this) as [|c b];
    [|now destruct (_include_step_in_filename this)].
  destruct (_include_step_in_filename this); reflexivity.
Qed.

Lemma config_path_step_inj this s1 s2 :
  _include_step_in_filename this = true ->
  config_path this s1 = config_path this s2 -> s1 = s2.
Proof.
  intros Hinc H. apply (filename_step_inj this); [assumption|].
  unfold config_path, os_path_join in H.
  rewrite !startswith_sep_filename in H.
  destruct (startswith_sep (_base_name this)); [assumption|].
  destruct (is_empty (_output_dir this) || endswith_sep (_output_dir this)).
  - now apply (inj (String.app _)) in H.
  - apply (inj (String.app _)) in H. now apply (inj (String.app _)) in H.
Qed.

Lemma resolve_config_path_inj cwd this s1 s2 :
  _include_step_in_filename this = true ->
  has_sep (_base_name this) = false ->
  resolve cwd (config_path this s1) = resolve cwd (config_path this s2) ->
  s1 = s2.
Proof.
  intros Hinc Hb. unfold config_path.
  rewrite !resolve_join by now apply filename_plain.
  intros [= H]. now apply (filename_step_inj this).
Qed.

(** X2. With the step in the file name, calls at different steps are
    given different paths; with a base name without '/', the paths also
    denote different files, from any working directory. *)
Theorem config_path_step_distinct this s1 s2 :
  _include_step_in_filename this = true ->
  s1 <> s2 ->
  config_path this s1 <> config_path this s2 /\
  (has_sep (_base_name this) = false ->
   forall cwd,
     resolve cwd (config_path this s1) <> resolve cwd (config_path this s2)).
Proof.
  intros Hinc Hne. split.
  - intros H. apply Hne. now apply (config_path_step_inj this).
  - intros Hb cwd H. apply Hne.
    now apply (resolve_config_path_inj cwd this).
Qed.

Lemma endswith_sep_append_sep d : endswith_sep (d +:+ "/") = true.
Proof.
  induction d as [|c d IH]; [reflexivity|].
  rewrite append_String. destruct d as [|c' d']; [reflexivity|].
  exact IH.
Qed.

(** X3. A trailing '/' on [output_dir] makes no difference to the file
    written, whatever the base name. *)
Theorem output_dir_trailing_sep cwd d b s sw i step :
  is_empty d = false ->
  resolve cwd (config_path (mkHook (d +:+ "/") b s sw i) step) =
  resolve cwd (config_path (mkHook d b s sw i) step).
Proof.
  intros Hd. unfold config_path. cbn [_output_dir].
  change (filename (mkHook (d +:+ "/") b s sw i) step)
    with (filename (mkHook d b s sw i) step).
  generalize (filename (mkHook d b s sw i) step). intros f.
  unfold os_path_join.
  destruct (startswith_sep f); [reflexivity|].
  rewrite endswith_sep_append_sep, orb_true_r, Hd. cbn [orb].
  destruct (endswith_sep d) eqn:He; [|now rewrite append_assoc].
  destruct (endswith_sep_inv _ He) as [a0 ->].
  assert (((a0 +:+ String sep "") +:+ "/") +:+ f
          = a0 +:+ String sep (String sep f)) as ->
    by (rewrite !append_assoc; reflexivity).
  assert ((a0 +:+ String sep "") +:+ f = a0 +:+ String sep f) as ->
    by (rewrite append_assoc; reflexivity).
  unfold resolve. rewrite !split_sep_append.
  assert (startswith_sep (a0 +:+ String sep (String sep f))
          = startswith_sep (a0 +:+ String sep f)) as -> by now destruct a0.
  change (split_sep (String sep f)) with ("" :: split_sep f).
  rewrite !fold_left_app. reflexivity.
Qed.

Lemma resolve_absolute cwd s :
  startswith_sep s = true -> resolve cwd s = resolve [] s.
Proof. unfold resolve. now intros ->. Qed.

Lemma fs_with_dir_has_dir d f : resolve (cwd f) d ∈ dirs (fs_with_dir d f).
Proof.
  unfold fs_with_dir. destruct (is_directory d f) eqn:Hd.
  - unfold is_directory in Hd. apply andb_true_iff in Hd as [_ Hd].
    now apply bool_decide_eq_true_1 in Hd.
  - simpl. apply elem_of_union_l, elem_of_list_to_set, ancestors_self.
Qed.

Section more.
Variable markdown : string -> string.

Lemma close_raises f w e w' :
  close f w = (Raise e, w') -> faults w (close_call f) = true.
Proof.
  unfold close, extern. now destruct (faults w (close_call f)).
Qed.

(** Lines 90-94 touch neither the file system nor the faults. *)
Lemma global_step_val_any session w r w' :
  global_step_val session w = (r, w') ->
  fs w' = fs w /\ faults w' = faults w.
Proof.
  unfold global_step_val. destruct session as [sess|];
    [|intros [= <- <-]; auto].
  intros H. bind_any H E; inv_total E; [|injection H as <- <-; auto].
  destruct (global_step w) as [t|]; [|injection H as <- <-; auto].
  inv_partial H Hb; [auto|]. case_match; [|discriminate].
  inj_pair Hb. auto.
Qed.

(** The file system at the end of lines 87-101, whatever their outcome. *)
Lemma save_config_fs session w r w1 :
  save_config (self w) session w = (r, w1) ->
  let f1 := fs_with_dir (_output_dir (self w)) (fs w) in
  fs w1 = fs w \/ fs w1 = f1 \/
  exists step,
    let name := config_path (self w) step in
    let p := resolve (cwd (fs w)) name in
    (fs w1 = write_file p (operative_config w) f1 /\
     faults w (close_call (mkGFile name "w")) = true /\
     r = Raise (Error (close_call (mkGFile name "w")))) \/
    (fs w1 = close_file p f1 /\
     r = Raise (Error (write_call (mkGFile name "w") (operative_config w)))) \/
    (fs w1 = saved_fs w step /\ r = Ok (operative_config w, step)).
Proof.
  intros H f1. unfold save_config in H.
  bind_any H E; inv_total E; [|injection H as <- <-; auto].
  bind_any H E; inv_total E; [|injection H as <- <-; auto].
  cbn [record fs dirs cwd] in H.
  rewrite mbind_eq in H.
  match type of H with
  | context [match ?m ?w0 with _ => _ end] =>
      destruct (m w0) as [[[]|e] wa] eqn:E
  end.
  2:{ injection H as <- <-. left.
      destruct (is_directory _ _); simpl in E; [discriminate|].
      inv_partial E Hb. reflexivity. }
  assert (fs wa = f1 /\ faults wa = faults w) as [Hfa Hfl].
  { subst f1. unfold fs_with_dir.
    destruct (is_directory _ _) eqn:Hd; simpl in E.
    - injection E as <-. auto.
    - inv_partial E Hb. simpl in Hb. case_match; [|discriminate].
      inj_pair Hb. auto. }
  clear E.
  rewrite mbind_eq in H.
  destruct (global_step_val session wa) as [[step|e] wb] eqn:E;
    apply global_step_val_any in E as [Hfb Hflb].
  2:{ injection H as <- <-. right. left. congruence. }
  bind_any H E; inv_total E;
    [|injection H as <- <-; right; left; simpl; congruence].
  rewrite mbind_eq, finally_eq in H.
  assert (cwd f1 = cwd (fs w)) as Hcwd by apply fs_with_dir_cwd.
  set (nm := config_path (self w) step) in *.
  set (w2 := record (GFile_call nm "w") true wb) in *.
  assert (fs w2 = f1 /\ faults w2 = faults w) as [Hf2 Hfl2]
    by (subst w2; simpl; split; congruence).
  clearbody w2.
  destruct (write _ _ w2) as [rw ww] eqn:Ew.
  destruct (close _ ww) as [rc wc] eqn:Ec.
  pose proof Ec as Ec'.
  inv_partial Ew Hb; inv_total Ec; cbn in H; injection H as <- <-; simpl.
  - right. left. congruence.
  - right. right. exists step. right. left. fold nm.
    rewrite Hf2, Hcwd. auto.
  - right. right. exists step. left. fold nm.
    simpl in Hb. destruct (writable _ _) in Hb; [|discriminate].
    inj_pair Hb. simpl.
    rewrite Hf2, Hcwd. split; [reflexivity|]. split; [|reflexivity].
    apply close_raises in Ec'. simpl in Ec'. congruence.
  - right. right. exists step. right. right.
    simpl in Hb. destruct (writable _ _) in Hb; [|discriminate].
    inj_pair Hb. simpl.
    unfold saved_fs. fold f1. rewrite Hf2, Hcwd. auto.
Qed.

(** The same for the whole method: lines 104-121 leave the file system. *)
Lemma after_create_session_fs_any session w r w' :
  after_create_session markdown session w = (r, w') ->
  let f1 := fs_with_dir (_output_dir (self w)) (fs w) in
  fs w' = fs w \/ fs w' = f1 \/
  exists step,
    let name := config_path (self w) step in
    let p := resolve (cwd (fs w)) name in
    (fs w' = write_file p (operative_config w) f1 /\
     faults w (close_call (mkGFile name "w")) = true) \/
    fs w' = close_file p f1 \/
    fs w' = saved_fs w step.
Proof.
  rewrite after_create_session_split.
  destruct (save_config (self w) session w) as [r1 w1] eqn:E.
  apply save_config_fs in E. intros H.
  assert (fs w' = fs w1) as Hfs.
  { destruct r1 as [[cfg step]|e]; [|now injection H as _ <-].
    destruct (_summarize_config (self w)); [|now injection H as _ <-].
    apply summarize_config_within in H as [[_ Hfs _ _ _ _ _] _]. exact Hfs. }
  rewrite Hfs. cbv zeta in *.
  destruct E as [?|[?|(step & [(? & ? & _)|[[? _]|[? _]]])]];
    [auto|auto|right; right; exists step..]; auto.
Qed.

Lemma fs_with_dir_files d f : files (fs_with_dir d f) = files f.
Proof. unfold fs_with_dir. destruct (is_directory _ _); reflexivity. Qed.

Lemma fs_with_dir_open d f : open_files (fs_with_dir d f) = open_files f.
Proof. unfold fs_with_dir. destruct (is_directory _ _); reflexivity. Qed.

Lemma fs_with_dir_dirs d f :
  dirs f ⊆ dirs (fs_with_dir d f) /\
  dirs (fs_with_dir d f)
    ⊆ dirs f ∪ list_to_set (ancestors (resolve (cwd f) d)).
Proof.
  unfold fs_with_dir. destruct (is_directory _ _); simpl; set_solver.
Qed.

(** X4. Whatever its outcome, a call leaves the working directory where
    it is, removes no directory and no file, and creates no directory but
    [output_dir] and the directories above it. *)
Theorem after_create_session_removes_nothing session w r w' :
  after_create_session markdown session w = (r, w') ->
  cwd (fs w') = cwd (fs w) /\
  (dirs (fs w) ⊆ dirs (fs w')) /\
  (dirs (fs w') ⊆ dirs (fs w) ∪
     list_to_set (ancestors (resolve (cwd (fs w)) (_output_dir (self w))))) /\
  (dom (files (fs w)) ⊆ dom (files (fs w'))).
Proof.
  intros H. apply after_create_session_fs_any in H.
  pose proof (fs_with_dir_dirs (_output_dir (self w)) (fs w)) as [Hd1 Hd2].
  pose proof (fs_with_dir_files (_output_dir (self w)) (fs w)) as Hfiles.
  pose proof (fs_with_dir_cwd (_output_dir (self w)) (fs w)) as Hcwd.
  destruct H as [->|[->|(step & [[-> _]|[->| ->]])]];
    unfold saved_fs; simpl; rewrite ?Hfiles, ?Hcwd;
    (split; [reflexivity|]); (split; [set_solver|]); (split; [set_solver|]);
    try reflexivity; rewrite dom_insert; set_solver.
Qed.


Lemma after_create_session_settings session w r w' :
  after_create_session markdown session w = (r, w') ->
  operative_config w' = operative_config w /\
  global_step w' = global_step w /\
  faults w' = faults w /\
  (forall v, set_summary_writer v (self w') = set_summary_writer v (self w)) /\
  (forall r fw, writers w !! r = Some fw ->
     exists fw', writers w' !! r = Some fw' /\ truthy fw' = truthy fw).
Proof.
  rewrite after_create_session_split.
  destruct (save_config (self w) session w) as [r1 w1] eqn:E.
  apply save_config_within in E as [[Hc Hg Hw _ Hs Hf _ _] _].
  intros H.
  assert (w1 = w' \/
          exists cfg step, summarize_config markdown cfg step w1 = (r, w'))
    as [->|(cfg & step & H')].
  { destruct r1 as [[cfg step]|e]; [|injection H as _ <-; auto].
    destruct (_summarize_config (self w)); [eauto|injection H as _ <-; auto]. }
  { repeat split; try congruence.
    intros r0 fw Hr. exists fw. rewrite Hw. auto. }
  apply summarize_config_within in H' as [[Hc' _ Hg' Hf' Hs' Hw' _] _].
  repeat split; try congruence.
  intros r0 fw Hr. apply Hw'. now rewrite Hw.
Qed.

Lemma config_path_ext this this' step :
  (forall v, set_summary_writer v this' = set_summary_writer v this) ->
  config_path this' step = config_path this step.
Proof.
  intros H. specialize (H PyNone). unfold set_summary_writer in H.
  injection H as Hd Hb _ Hi.
  unfold config_path, filename. now rewrite Hd, Hb, Hi.
Qed.

(** X6. Whatever its outcome, a call leaves the settings of the hook (the
    output directory, the base name and the two flags) as they were, so a
    later call at the same step is given the same path; it also leaves the
    configuration and the global step variable alone. *)
Theorem after_create_session_keeps_settings session w r w' :
  after_create_session markdown session w = (r, w') ->
  _output_dir (self w') = _output_dir (self w) /\
  _base_name (self w') = _base_name (self w) /\
  _summarize_config (self w') = _summarize_config (self w) /\
  _include_step_in_filename (self w') = _include_step_in_filename (self w) /\
  (forall step, config_path (self w') step = config_path (self w) step) /\
  operative_config w' = operative_config w /\
  global_step w' = global_step w.
Proof.
  intros H. apply after_create_session_settings in H
    as (Hc & Hg & _ & Hs & Hw).
  pose proof (Hs PyNone) as H0. unfold set_summary_writer in H0.
  injection H0 as Hd Hb Hz Hi.
  repeat split; try assumption.
  intros step. now apply config_path_ext.
Qed.

(** X7. With the step in the file name and a base name without '/', a
    completed call changes no file written for another step. *)
Theorem after_create_session_keeps_other_steps session w w' :
  _include_step_in_filename (self w) = true ->
  has_sep (_base_name (self w)) = false ->
  after_create_session markdown session w = (Ok tt, w') ->
  exists step,
    spec_resolved_step session w = Some step /\
    forall s, s <> step ->
      files (fs w') !! resolve (cwd (fs w)) (config_path (self w) s) =
      files (fs w) !! resolve (cwd (fs w)) (config_path (self w) s).
Proof.
  intros Hinc Hb H.
  apply after_create_session_fs in H as (step & Hstep & ->).
  exists step. split; [assumption|]. intros s Hs.
  rewrite saved_fs_files. apply lookup_insert_ne.
  intros Heq. apply Hs. symmetry.
  now apply (resolve_config_path_inj (cwd (fs w)) (self w)).
Qed.

Lemma add_dirs_id ps f : list_to_set ps ⊆ dirs f -> add_dirs ps f = f.
Proof.
  intros H. destruct f as [ds fl op cw]. unfold add_dirs. simpl in *.
  f_equal. set_solver.
Qed.

Lemma saved_fs_cwd w step : cwd (saved_fs w step) = cwd (fs w).
Proof. unfold saved_fs. simpl. apply fs_with_dir_cwd. Qed.

Lemma fs_with_dir_saved_fs w step :
  fs_with_dir (_output_dir (self w)) (saved_fs w step) = saved_fs w step.
Proof.
  unfold fs_with_dir at 1.
  destruct (is_directory _ (saved_fs w step)) eqn:Hd; [reflexivity|].
  apply add_dirs_id. rewrite saved_fs_cwd, saved_fs_dirs.
  unfold is_directory in Hd. rewrite saved_fs_cwd, saved_fs_dirs in Hd.
  unfold fs_with_dir in *.
  destruct (is_directory (_output_dir (self w)) (fs w)) eqn:Hd0.
  - unfold is_directory in Hd0. rewrite Hd0 in Hd. discriminate.
  - simpl. set_solver.
Qed.

Lemma saved_fs_again w step :
  let p := resolve (cwd (fs w)) (config_path (self w) step) in
  close_file p
    (write_file p (operative_config w)
       (fs_with_dir (_output_dir (self w)) (saved_fs w step)))
  = saved_fs w step.
Proof.
  intros p. rewrite fs_with_dir_saved_fs. unfold saved_fs.
  rewrite fs_with_dir_cwd. fold p.
  unfold close_file, write_file. simpl. f_equal.
  - apply insert_insert_eq.
  - set_solver.
Qed.

Lemma saved_twice session w w1 w2 :
  after_create_session markdown session w = (Ok tt, w1) ->
  after_create_session markdown session w1 = (Ok tt, w2) ->
  exists step,
    spec_resolved_step session w = Some step /\
    spec_resolved_step session w1 = Some step /\
    fs w1 = saved_fs w step /\ fs w2 = saved_fs w step.
Proof.
  intros H1 H2.
  pose proof (after_create_session_settings _ _ _ _ H1)
    as (Hc & Hg & _ & Hs & _).
  apply after_create_session_fs in H1 as (step & Hstep & Hfs1).
  apply after_create_session_fs in H2 as (step' & Hstep' & Hfs2).
  pose proof Hstep' as Hstep1.
  rewrite (spec_resolved_step_ext _ _ _ Hg), Hstep in Hstep'.
  injection Hstep' as <-.
  exists step. split; [assumption|]. split; [assumption|].
  split; [assumption|].
  rewrite Hfs2. unfold saved_fs at 1.
  rewrite (config_path_ext _ _ _ Hs), Hc.
  pose proof (Hs PyNone) as H0. unfold set_summary_writer in H0.
  injection H0 as -> _ _ _.
  rewrite Hfs1, fs_with_dir_cwd, saved_fs_cwd.
  apply saved_fs_again.
Qed.

(** X8. Calling the hook again right after a completed call, with the
    same session, resolves the same step and the same path, rewrites the
    same configuration file with the same text, leaves it closed, and
    creates no directory. *)
Theorem after_create_session_twice session w w1 w2 :
  after_create_session markdown session w = (Ok tt, w1) ->
  after_create_session markdown session w1 = (Ok tt, w2) ->
  exists step,
    let p := resolve (cwd (fs w)) (config_path (self w) step) in
    spec_resolved_step session w = Some step /\
    spec_resolved_step session w1 = Some step /\
    resolve (cwd (fs w1)) (config_path (self w1) step) = p /\
    files (fs w1) !! p = Some (operative_config w) /\
    files (fs w2) !! p = Some (operative_config w) /\
    (p ∉ open_files (fs w2)) /\
    dirs (fs w2) = dirs (fs w1).
Proof.
  intros H1 H2.
  pose proof (after_create_session_settings _ _ _ _ H1)
    as (_ & _ & _ & Hs & _).
  destruct (saved_twice _ _ _ _ H1 H2) as (step & Hs1 & Hs2 & Hf1 & Hf2).
  exists step. cbv zeta. rewrite Hf1, Hf2, saved_fs_cwd, saved_fs_files.
  rewrite (config_path_ext _ _ _ Hs).
  repeat split; try assumption; try apply lookup_insert_eq.
  apply saved_fs_open.
Qed.

(** *** Failures *)

(** X9. If the call raises from a call of the save part (lines 87-101),
    the summary work has not started: writers, writer cache and hook are
    as before and the log shows save calls only. *)
Theorem save_failure_skips_summary session w c w' :
  after_create_session markdown session w = (Raise (Error c), w') ->
  is_save_call c = true ->
  writers w' = writers w /\ writer_cache w' = writer_cache w /\
  self w' = self w /\
  exists evs, log w' = log w ++ evs /\
              Forall (fun e => is_save_call e.1 = true) evs.
Proof.
  rewrite after_create_session_split.
  destruct (save_config (self w) session w) as [r1 w1] eqn:E.
  apply save_config_within in E as [[_ _ Hw Hca Hs _ _ Hl] _].
  intros H Hc.
  destruct r1 as [[cfg step]|e].
  - destruct (_summarize_config (self w)); [|discriminate].
    apply summarize_config_within in H as [_ He].
    destruct (He _ eq_refl) as (c' & [= <-] & Hc').
    unfold is_save_call in Hc. rewrite Hc' in Hc. discriminate.
  - injection H as _ <-. auto.
Qed.

(** X10. If the call raises before the write (from [operative_config_str],
    [isdir], [makedirs], the step lookup or [GFile]), no file has been
    created, changed or opened. *)
Theorem failure_before_write_keeps_files session w c w' :
  after_create_session markdown session w = (Raise (Error c), w') ->
  is_pre_write_call c = true ->
  files (fs w') = files (fs w) /\ open_files (fs w') = open_files (fs w).
Proof.
  rewrite after_create_session_split.
  destruct (save_config (self w) session w) as [r1 w1] eqn:E.
  intros H Hc.
  destruct r1 as [[cfg step]|e].
  - destruct (_summarize_config (self w)); [|discriminate].
    apply summarize_config_within in H as [_ He].
    destruct (He _ eq_refl) as (c' & [= <-] & Hc').
    destruct c; discriminate.
  - injection H as -> <-.
    apply save_config_fs in E. cbv zeta in E.
    destruct E as [->|[->|(step & [(_ & _ & [= ->])|[[_ [= ->]]|[_ [=]]]])]];
      try discriminate.
    + auto.
    + split; [apply fs_with_dir_files|apply fs_with_dir_open].
Qed.

(** X11. A call that returns has made no framework call that failed: no
    exception is caught on the way. *)
Theorem after_create_session_no_failed_call session w w' :
  after_create_session markdown session w = (Ok tt, w') ->
  exists evs, log w' = log w ++ evs /\ Forall (fun e => e.2 = true) evs.
Proof.
  intros H. apply after_create_session_Ok in H
    as (step & _ & _ & _ & H).
  assert (Forall (fun e : call * bool => e.2 = true)
            (save_calls session w step)) as Hsave.
  { unfold save_calls, mkdir_calls, step_calls, write_calls.
    destruct session as [sess|]; [destruct (global_step w)|];
      destruct (is_directory _ _); repeat constructor. }
  destruct (_summarize_config (self w)).
  - apply summarize_config_Ok in H as (r & _ & _ & _ & _ & Hl).
    cbn [saved_world log] in Hl. rewrite <- List.app_assoc in Hl.
    eexists. split; [exact Hl|].
    apply Forall_app. split; [exact Hsave|].
    unfold summary_calls. repeat constructor.
    destruct (truth _ _); repeat constructor.
  - subst w'. eexists. split; [reflexivity|exact Hsave].
Qed.

(** *** A path for a base name *)

(** X12. A base name that starts with '/' makes [os.path.join] drop the
    output directory: a completed call writes the file named by the base
    name alone, from the root, and still creates the output directory. *)
Theorem absolute_base_name_ignores_output_dir session w w' :
  startswith_sep (_base_name (self w)) = true ->
  after_create_session markdown session w = (Ok tt, w') ->
  exists step,
    spec_resolved_step session w = Some step /\
    files (fs w') =
      <[resolve [] (filename (self w) step) := operative_config w]>
        (files (fs w)) /\
    resolve (cwd (fs w)) (_output_dir (self w)) ∈ dirs (fs w').
Proof.
  intros Hb H.
  apply after_create_session_fs in H as (step & Hstep & ->).
  exists step. split; [assumption|]. split.
  - rewrite saved_fs_files. unfold config_path, os_path_join.
    rewrite startswith_sep_filename, Hb.
    rewrite resolve_absolute; [reflexivity|].
    now rewrite startswith_sep_filename.
  - rewrite saved_fs_dirs. apply fs_with_dir_has_dir.
Qed.


(** *** Completion *)

Lemma emit_run r fw summary step w :
  (forall c, faults w c = false) ->
  in_int64 step = true ->
  _summary_writer (self w) = PyRef r -> writers w !! r = Some fw ->
  exists w',
    (sw ← get_summary_writer;
     add_summary sw summary step;;
     sw ← get_summary_writer;
     flush sw) w = (Ok tt, w').
Proof.
  intros Hf Hin Hsw Hr.
  rewrite mbind_eq. unfold get_summary_writer at 1, gets at 1.
  rewrite Hsw, mbind_eq. unfold add_summary.
  erewrite extern_eff_run;
    [|apply Hf
     |unfold on_writer_eff, writer_add_summary; rewrite Hr, Hin; reflexivity].
  rewrite mbind_eq. unfold get_summary_writer at 1, gets at 1.
  cbn [record set_writers self]. rewrite Hsw. unfold flush.
  erewrite extern_run; [eauto|apply Hf|].
  unfold on_writer. cbn [record set_writers writers].
  rewrite lookup_insert_eq. reflexivity.
Qed.

Lemma summarize_config_run config_str step w :
  (forall c, faults w c = false) -> cache_ok w -> writer_live w ->
  in_int64 step = true ->
  exists w', summarize_config markdown config_str step w = (Ok tt, w').
Proof.
  intros Hf Hcache Hlive Hin. unfold summarize_config.
  rewrite mbind_eq. unfold get_self at 1, gets at 1.
  rewrite mbind_eq. unfold config_markdown.
  erewrite extern_run; [|apply Hf|reflexivity].
  rewrite mbind_eq. unfold make_tensor_proto.
  erewrite extern_run; [|apply Hf|reflexivity].
  rewrite mbind_eq. unfold get_summary_writer at 1, gets at 1.
  rewrite mbind_eq. unfold not_ at 1, gets at 1.
  cbn [record self writers truth].
  change (truth (_summary_writer (self w)) (record _ _ (record _ _ w)))
    with (truth (_summary_writer (self w)) w).
  set (w2 := record _ true (record _ true w)).
  assert (forall c, faults w2 c = false) as Hf2 by exact Hf.
  rewrite mbind_eq.
  destruct (truth (_summary_writer (self w)) w) eqn:Ht; cbn [negb].
  - cbn [ret mret M_ret].
    unfold writer_live in Hlive. unfold truth in Ht.
    destruct (_summary_writer (self w)) as [|r] eqn:Hsw; [discriminate|].
    destruct Hlive as [fw Hr].
    apply (emit_run r fw); assumption.
  - rewrite mbind_eq. unfold FileWriterCache_get.
    destruct (writer_cache w !! _output_dir (self w)) as [r|] eqn:Hc.
    + destruct (Hcache _ _ Hc) as (fw & Hr & _).
      erewrite extern_run;
        [|apply Hf2|cbn [w2 record writer_cache]; rewrite Hc; reflexivity].
      unfold modify.
      apply (emit_run r fw); [exact Hf|exact Hin|reflexivity|exact Hr].
    + erewrite extern_run;
        [|apply Hf2|cbn [w2 record writer_cache]; rewrite Hc; reflexivity].
      unfold modify.
      eapply (emit_run _ _); [exact Hf|exact Hin|reflexivity|].
      cbn [record set_self set_writer_cache set_writers writers].
      apply lookup_insert_eq.
Qed.

(** X13. When the environment makes no call fail and the writers the hook
    and the cache hold are live, the call returns exactly when [makedirs]
    is not needed or has nothing in its way, the step lookup has a value,
    the file can be created under the output directory and, with summaries
    on, the step fits the int64 field of the event. *)
Theorem after_create_session_completes_iff session w :
  (forall c, faults w c = false) -> cache_ok w -> writer_live w ->
  (exists w', after_create_session markdown session w = (Ok tt, w')) <->
  (makedirs_ok w = true /\
   exists step,
     spec_resolved_step session w = Some step /\
     writable (resolve (cwd (fs w)) (config_path (self w) step))
       (fs_with_dir (_output_dir (self w)) (fs w)) = true /\
     implb (_summarize_config (self w)) (in_int64 step) = true).
Proof.
  intros Hf Hcache Hlive. split.
  - intros [w' H]. apply after_create_session_Ok in H
      as (step & Hstep & Hmk & Hwr & H).
    split; [assumption|]. exists step.
    split; [assumption|]. split; [assumption|].
    destruct (_summarize_config (self w)); [|reflexivity].
    apply summarize_config_Ok in H as (r & _ & _ & Hin & _). exact Hin.
  - intros (Hmk & step & Hstep & Hwr & Hin).
    rewrite after_create_session_split.
    rewrite (save_config_run session w step) by assumption.
    destruct (_summarize_config (self w)); [|eauto].
    apply summarize_config_run; assumption.
Qed.

Lemma events_kept_preorder : PreOrder events_kept.
Proof.
  split.
  - intros w. split; [auto|]. intros r fw Hr. exists fw, [].
    rewrite app_nil_r. auto.
  - intros w1 w2 w3 [Hc1 Hw1] [Hc2 Hw2]. split; [auto|].
    intros r fw Hr.
    destruct (Hw1 _ _ Hr) as (fw' & m1 & Hr' & Hd1 & He1).
    destruct (Hw2 _ _ Hr') as (fw'' & m2 & Hr'' & Hd2 & He2).
    exists fw'', (m1 ++ m2). split; [assumption|]. split; [congruence|].
    rewrite He2, He1. now rewrite List.app_assoc.
Qed.
#[local] Existing Instance events_kept_preorder.

Lemma events_kept_eq w w' :
  writers w' = writers w -> writer_cache w' = writer_cache w ->
  events_kept w w'.
Proof.
  intros Hw Hc. split; rewrite ?Hw, ?Hc; [auto|].
  intros r fw Hr. exists fw, []. rewrite app_nil_r. auto.
Qed.

Lemma events_kept_on_writer sw f w a w1 :
  (forall fw, logdir (f fw) = logdir fw /\
              exists more, events (f fw) = events fw ++ more) ->
  on_writer sw f w = Some (a, w1) -> events_kept w w1.
Proof.
  intros Hf. unfold on_writer. destruct sw as [|r]; [discriminate|].
  destruct (writers w !! r) as [fw|] eqn:Hr; [|discriminate].
  intros [= <- <-]. split; [auto|]. intros r0 fw0 Hr0. simpl.
  destruct (decide (r = r0)) as [->|Hne].
  - rewrite lookup_insert_eq. rewrite Hr in Hr0. injection Hr0 as <-.
    destruct (Hf fw) as (Hd & more & He). eauto 6.
  - rewrite lookup_insert_ne by assumption. exists fw0, [].
    rewrite app_nil_r. auto.
Qed.

Lemma events_add_event e fw :
  logdir (add_event e fw) = logdir fw /\
  exists more, events (add_event e fw) = events fw ++ more.
Proof.
  split; [reflexivity|]. exists [e]. unfold events. simpl.
  now rewrite List.app_assoc.
Qed.

Lemma events_flush_events fw :
  logdir (flush_events fw) = logdir fw /\
  exists more, events (flush_events fw) = events fw ++ more.
Proof.
  split; [reflexivity|]. exists []. unfold events. simpl.
  now rewrite !app_nil_r.
Qed.

Lemma events_kept_on_writer_eff sw f w o w1 :
  (forall fw o fw', f fw = (o, fw') ->
     logdir fw' = logdir fw /\
     exists more, events fw' = events fw ++ more) ->
  on_writer_eff sw f w = (o, w1) -> events_kept w w1.
Proof.
  intros Hf H.
  apply on_writer_eff_inv in H
    as [[_ ->]|(r & fw & fw' & _ & Hr & Hfw & ->)]; [reflexivity|].
  split; [auto|]. intros r0 fw0 Hr0. simpl.
  destruct (decide (r = r0)) as [->|Hne].
  - rewrite lookup_insert_eq. rewrite Hr in Hr0. injection Hr0 as <-.
    destruct (Hf _ _ _ Hfw) as (Hd & more & He). eauto 6.
  - rewrite lookup_insert_ne by assumption. exists fw0, [].
    rewrite app_nil_r. auto.
Qed.

Lemma events_writer_add_summary summary step fw o fw' :
  writer_add_summary summary step fw = (o, fw') ->
  logdir fw' = logdir fw /\
  exists more, events fw' = events fw ++ more.
Proof.
  intros H. apply writer_add_summary_keeps in H
    as (_ & Hd & Hfl & more & Hp).
  split; [assumption|]. exists more. unfold events.
  now rewrite Hfl, Hp, List.app_assoc.
Qed.

Lemma events_kept_cache_get d w :
  writer_cache w !! d = None ->
  events_kept w
    (set_writer_cache (insert d (fresh (dom (writers w))))
       (set_writers
          (insert (fresh (dom (writers w))) (mkFileWriter d true [] [] ∅))
          w)).
Proof.
  intros Hd. split; simpl.
  - intros d0 r Hr. rewrite lookup_insert_ne; [assumption|]. congruence.
  - intros r fw Hr. exists fw, []. rewrite app_nil_r.
    split; [|auto]. rewrite lookup_insert_ne; [assumption|].
    intros <-. apply (is_fresh (dom (writers w))). apply elem_of_dom. eauto.
Qed.

Lemma summarize_config_events config_str step :
  within events_kept is_summary_call
    (summarize_config markdown config_str step).
Proof.
  unfold summarize_config, get_self, get_summary_writer, not_,
    config_markdown, make_tensor_proto, FileWriterCache_get, add_summary,
    flush.
  repeat first
    [ apply within_bind; [exact _| |intros ?]
    | apply within_if
    | apply within_ret; exact _
    | apply within_gets; exact _
    | intros ? ? ? [= <- <-]; split;
      [apply events_kept_eq; reflexivity|discriminate]
    | apply within_extern_eff;
      [ exact _
      | reflexivity
      | intros ? ?; apply events_kept_eq; reflexivity
      | let Hb := fresh in
        intros ? ? ? Hb;
        eapply events_kept_on_writer_eff; [|exact Hb];
        apply events_writer_add_summary ]
    | apply within_extern;
      [ exact _
      | reflexivity
      | intros ? ?; apply events_kept_eq; reflexivity
      | let Hb := fresh in
        intros ? ? ? Hb;
        first
          [ eapply events_kept_on_writer; [|exact Hb];
            first [apply events_add_event | apply events_flush_events]
          | repeat case_match; simplify_eq;
            first [reflexivity | apply events_kept_cache_get; assumption] ] ] ].
Qed.

(** X14. Whatever its outcome, a call loses nothing of what the summary
    writers hold: every writer stays, with its directory and with the
    records it had, in order, at the front of those it has afterwards;
    and every entry of the writer cache stays as it was. *)
Theorem after_create_session_keeps_events session w r w' :
  after_create_session markdown session w = (r, w') ->
  (forall d x, writer_cache w !! d = Some x -> writer_cache w' !! d = Some x)
  /\
  forall x fw, writers w !! x = Some fw ->
    exists fw' more,
      writers w' !! x = Some fw' /\ logdir fw' = logdir fw /\
      flushed fw' ++ pending fw' = (flushed fw ++ pending fw) ++ more.
Proof.
  rewrite after_create_session_split.
  destruct (save_config (self w) session w) as [r1 w1] eqn:E.
  apply save_config_within in E as [[_ _ Hw Hc _ _ _ _] _].
  pose proof (events_kept_eq _ _ Hw Hc) as H1.
  intros H.
  assert (events_kept w w') as [Hcache Hwriters]; [|split; assumption].
  destruct r1 as [[cfg step]|e]; [|now injection H as _ <-].
  destruct (_summarize_config (self w)); [|now injection H as _ <-].
  apply summarize_config_events in H as [H2 _].
  etrans; eassumption.
Qed.


(** *** Calls a run does not make *)

Lemma calls_only_preorder P : PreOrder (calls_only P).
Proof.
  split.
  - intros w. exists []. rewrite app_nil_r. auto.
  - intros w1 w2 w3 (evs1 & Hl1 & Hq1) (evs2 & Hl2 & Hq2).
    exists (evs1 ++ evs2). rewrite Hl2, Hl1, List.app_assoc.
    split; [reflexivity|]. apply Forall_app; auto.
Qed.
#[local] Existing Instance calls_only_preorder.

Lemma calls_only_log P w w' : log w' = log w -> calls_only P w w'.
Proof. intros H. exists []. rewrite app_nil_r. auto. Qed.

Lemma calls_only_record P c ok w :
  P c = true -> calls_only P w (record c ok w).
Proof. intros Hc. exists [(c, ok)]. split; [reflexivity|]. now constructor. Qed.

Lemma on_writer_log sw f w a w1 :
  on_writer sw f w = Some (a, w1) -> log w1 = log w.
Proof.
  unfold on_writer. repeat case_match; try discriminate.
  now intros [= <- <-].
Qed.

Lemma on_writer_eff_log sw f w o w1 :
  on_writer_eff sw f w = (o, w1) -> log w1 = log w.
Proof.
  intros H. apply on_writer_eff_inv in H
    as [[_ ->]|(r & fw & fw' & _ & _ & _ & ->)]; reflexivity.
Qed.

Ltac within_calls :=
  repeat first
    [ apply within_bind; [exact _| |intros ?]
    | apply within_finally; [exact _| |]
    | apply within_if
    | apply within_ret; exact _
    | apply within_gets; exact _
    | intros ? ? ? [= <- <-]; split;
      [apply calls_only_log; reflexivity|discriminate]
    | apply within_extern_eff;
      [ exact _
      | reflexivity
      | intros ? ?; apply calls_only_record; reflexivity
      | let Hb := fresh in
        intros ? ? ? Hb; apply calls_only_log;
        exact (on_writer_eff_log _ _ _ _ _ Hb) ]
    | apply within_extern;
      [ exact _
      | reflexivity
      | intros ? ?; apply calls_only_record; reflexivity
      | let Hb := fresh in
        intros ? ? ? Hb; apply calls_only_log;
        first
          [ exact (on_writer_log _ _ _ _ _ Hb)
          | repeat case_match; simplify_eq; reflexivity ] ] ].

(** X15. Without a session the global step is not looked up: whatever the
    outcome, the call makes no call of [get_global_step] or
    [session.run]. *)
Theorem no_session_no_step_lookup w r w' :
  after_create_session markdown None w = (r, w') ->
  exists evs, log w' = log w ++ evs /\
              Forall (fun e => is_step_call e.1 = false) evs.
Proof.
  intros H.
  assert (within (calls_only (fun c => negb (is_step_call c)))
            (fun _ => true) (after_create_session markdown None)) as Hin.
  { unfold after_create_session, summarize_config, global_step_val,
      get_self, get_summary_writer, not_, operative_config_str, isdir,
      makedirs, GFile, write, close, config_markdown, make_tensor_proto,
      FileWriterCache_get, add_summary, flush.
    within_calls. }
  apply Hin in H as [(evs & Hl & Hq) _]. exists evs. split; [assumption|].
  eapply Forall_impl; [exact Hq|]. intros e He. simpl in He.
  now apply negb_true_iff.
Qed.

(** X16. An output directory that [isdir] finds is not passed to
    [makedirs]: whatever the outcome, the call makes no call of
    [makedirs]. The empty path is not found. *)
Theorem existing_dir_no_makedirs session w r w' :
  is_directory (_output_dir (self w)) (fs w) = true ->
  after_create_session markdown session w = (r, w') ->
  exists evs, log w' = log w ++ evs /\
              Forall (fun e => is_makedirs e.1 = false) evs.
Proof.
  intros Hdir H.
  set (P := fun c => negb (is_makedirs c)).
  assert (calls_only P w w') as (evs & Hl & Hq).
  { unfold after_create_session in H.
    rewrite mbind_eq in H. unfold get_self at 1, gets at 1 in H.
    bind_any H E; inv_total E;
      [|injection H as _ <-; now apply calls_only_record].
    bind_any H E; inv_total E;
      [|injection H as _ <-;
        etrans; apply calls_only_record; reflexivity].
    cbn [record fs] in H.
    rewrite Hdir in H. cbn [negb] in H.
    match type of H with
    | ?m ?w0 = _ =>
        assert (within (calls_only P) (fun _ => true) m) as Hin
    end.
    { unfold summarize_config, global_step_val, get_global_step,
        session_run, get_self, get_summary_writer, not_, GFile, write,
        close, config_markdown, make_tensor_proto, FileWriterCache_get,
        add_summary, flush.
      destruct session as [sess|]; within_calls.
      match goal with
      | |- within _ _ (match ?x with Some _ => _ | None => _ end) =>
          destruct x
      end; within_calls. }
    destruct (Hin _ _ _ H) as [H' _].
    etrans; [|exact H'].
    etrans; apply calls_only_record; reflexivity. }
  exists evs. split; [assumption|].
  eapply Forall_impl; [exact Hq|]. intros e He. simpl in He.
  now apply negb_true_iff.
Qed.

End more.

(** *** The theorems on concrete runs *)

Lemma config_path_step_distinct_witness :
  _include_step_in_filename hook_ex = true /\
  5 <> 6 /\
  config_path hook_ex 5 <> config_path hook_ex 6 /\
  (has_sep (_base_name hook_ex) = false ->
   forall cwd,
     resolve cwd (config_path hook_ex 5)
       <> resolve cwd (config_path hook_ex 6)).
Proof.
  split; [reflexivity|]. split; [lia|].
  apply (config_path_step_distinct hook_ex 5 6); [reflexivity|lia].
Defined.

Lemma output_dir_trailing_sep_witness :
  is_empty "/tmp/run1" = false /\
  resolve ["home"]
    (config_path
       (mkHook ("/tmp/run1" +:+ "/") "operative_config" true PyNone true) 5)
  = resolve ["home"]
      (config_path (mkHook "/tmp/run1" "operative_config" true PyNone true) 5).
Proof.
  split; [reflexivity|].
  apply (output_dir_trailing_sep ["home"] "/tmp/run1" "operative_config"
           true PyNone true 5).
  reflexivity.
Defined.

Lemma after_create_session_removes_nothing_witness :
  after_create_session markdown_ex (Some session_ex) world_ex
    = (Ok tt, done_ex) /\
  cwd (fs done_ex) = cwd (fs world_ex) /\
  (dirs (fs world_ex) ⊆ dirs (fs done_ex)) /\
  (dirs (fs done_ex) ⊆ dirs (fs world_ex) ∪
     list_to_set
       (ancestors (resolve (cwd (fs world_ex)) (_output_dir (self world_ex)))))
  /\
  (dom (files (fs world_ex)) ⊆ dom (files (fs done_ex))).
Proof.
  split; [vm_compute; reflexivity|].
  apply (after_create_session_removes_nothing markdown_ex
           (Some session_ex) world_ex (Ok tt) done_ex).
  vm_compute. reflexivity.
Defined.


Lemma after_create_session_keeps_settings_witness :
  after_create_session markdown_ex (Some session_ex) world_ex
    = (Ok tt, done_ex) /\
  _output_dir (self done_ex) = _output_dir (self world_ex) /\
  _base_name (self done_ex) = _base_name (self world_ex) /\
  _summarize_config (self done_ex) = _summarize_config (self world_ex) /\
  _include_step_in_filename (self done_ex)
    = _include_step_in_filename (self world_ex) /\
  (forall step,
     config_path (self done_ex) step = config_path (self world_ex) step) /\
  operative_config done_ex = operative_config world_ex /\
  global_step done_ex = global_step world_ex.
Proof.
  split; [vm_compute; reflexivity|].
  apply (after_create_session_keeps_settings markdown_ex (Some session_ex)
           world_ex (Ok tt) done_ex).
  vm_compute. reflexivity.
Defined.

Lemma after_create_session_keeps_other_steps_witness :
  _include_step_in_filename (self world_ex) = true /\
  has_sep (_base_name (self world_ex)) = false /\
  after_create_session markdown_ex (Some session_ex) world_ex
    = (Ok tt, done_ex) /\
  exists step,
    spec_resolved_step (Some session_ex) world_ex = Some step /\
    forall s, s <> step ->
      files (fs done_ex)
        !! resolve (cwd (fs world_ex)) (config_path (self world_ex) s) =
      files (fs world_ex)
        !! resolve (cwd (fs world_ex)) (config_path (self world_ex) s).
Proof.
  split; [reflexivity|]. split; [reflexivity|].
  split; [vm_compute; reflexivity|].
  apply (after_create_session_keeps_other_steps markdown_ex
           (Some session_ex) world_ex done_ex);
    [reflexivity | reflexivity | vm_compute; reflexivity].
Defined.

Lemma after_create_session_twice_witness :
  after_create_session markdown_ex (Some session_ex) world_ex
    = (Ok tt, done_ex) /\
  after_create_session markdown_ex (Some session_ex) done_ex
    = (Ok tt, done_again) /\
  exists step,
    let p := resolve (cwd (fs world_ex)) (config_path (self world_ex) step) in
    spec_resolved_step (Some session_ex) world_ex = Some step /\
    spec_resolved_step (Some session_ex) done_ex = Some step /\
    resolve (cwd (fs done_ex)) (config_path (self done_ex) step) = p /\
    files (fs done_ex) !! p = Some (operative_config world_ex) /\
    files (fs done_again) !! p = Some (operative_config world_ex) /\
    (p ∉ open_files (fs done_again)) /\
    dirs (fs done_again) = dirs (fs done_ex).
Proof.
  split; [vm_compute; reflexivity|]. split; [vm_compute; reflexivity|].
  apply (after_create_session_twice markdown_ex (Some session_ex)
           world_ex done_ex done_again);
    vm_compute; reflexivity.
Defined.

Lemma save_failure_skips_summary_witness :
  after_create_session markdown_ex (Some session_unset) world_ex
    = (Raise (Error (session_run_call 7%nat)), failed_unset) /\
  is_save_call (session_run_call 7%nat) = true /\
  writers failed_unset = writers world_ex /\
  writer_cache failed_unset = writer_cache world_ex /\
  self failed_unset = self world_ex /\
  exists evs, log failed_unset = log world_ex ++ evs /\
              Forall (fun e => is_save_call e.1 = true) evs.
Proof.
  split; [vm_compute; reflexivity|]. split; [reflexivity|].
  apply (save_failure_skips_summary markdown_ex (Some session_unset)
           world_ex (session_run_call 7%nat) failed_unset);
    [vm_compute; reflexivity | reflexivity].
Defined.

Lemma failure_before_write_keeps_files_witness :
  after_create_session markdown_ex (Some session_unset) world_off
    = (Raise (Error (session_run_call 7%nat)), failed_off) /\
  is_pre_write_call (session_run_call 7%nat) = true /\
  files (fs failed_off) = files (fs world_off) /\
  open_files (fs failed_off) = open_files (fs world_off).
Proof.
  split; [vm_compute; reflexivity|]. split; [reflexivity|].
  apply (failure_before_write_keeps_files markdown_ex (Some session_unset)
           world_off (session_run_call 7%nat) failed_off);
    [vm_compute; reflexivity | reflexivity].
Defined.

Lemma after_create_session_no_failed_call_witness :
  after_create_session markdown_ex (Some session_ex) world_ex
    = (Ok tt, done_ex) /\
  exists evs, log done_ex = log world_ex ++ evs /\
              Forall (fun e => e.2 = true) evs.
Proof.
  split; [vm_compute; reflexivity|].
  apply (after_create_session_no_failed_call markdown_ex (Some session_ex)
           world_ex done_ex).
  vm_compute. reflexivity.
Defined.

Lemma absolute_base_name_ignores_output_dir_witness :
  startswith_sep (_base_name (self world_abs)) = true /\
  after_create_session markdown_ex (Some session_ex) world_abs
    = (Ok tt, done_abs) /\
  exists step,
    spec_resolved_step (Some session_ex) world_abs = Some step /\
    files (fs done_abs) =
      <[resolve [] (filename (self world_abs) step)
          := operative_config world_abs]> (files (fs world_abs)) /\
    resolve (cwd (fs world_abs)) (_output_dir (self world_abs))
      ∈ dirs (fs done_abs).
Proof.
  split; [reflexivity|]. split; [vm_compute; reflexivity|].
  apply (absolute_base_name_ignores_output_dir markdown_ex
           (Some session_ex) world_abs done_abs);
    [reflexivity | vm_compute; reflexivity].
Defined.

Lemma after_create_session_completes_iff_witness :
  (forall c, faults world_cached c = false) /\
  cache_ok world_cached /\ writer_live world_cached /\
  ((exists w', after_create_session markdown_ex (Some session_ex) world_cached
                 = (Ok tt, w')) <->
   (makedirs_ok world_cached = true /\
    exists step,
      spec_resolved_step (Some session_ex) world_cached = Some step /\
      writable
        (resolve (cwd (fs world_cached))
           (config_path (self world_cached) step))
        (fs_with_dir (_output_dir (self world_cached)) (fs world_cached))
        = true /\
      implb (_summarize_config (self world_cached)) (in_int64 step) = true)).
Proof.
  split; [intros c; reflexivity|]. split; [exact world_cached_cache_ok|].
  split; [exact world_cached_live|].
  apply (after_create_session_completes_iff markdown_ex (Some session_ex)
           world_cached);
    [intros c; reflexivity | exact world_cached_cache_ok
    | exact world_cached_live].
Defined.

Lemma after_create_session_keeps_events_witness :
  after_create_session markdown_ex (Some session_ex) done_ex
    = (Ok tt, done_again) /\
  (forall d x, writer_cache done_ex !! d = Some x ->
               writer_cache done_again !! d = Some x) /\
  forall x fw, writers done_ex !! x = Some fw ->
    exists fw' more,
      writers done_again !! x = Some fw' /\ logdir fw' = logdir fw /\
      flushed fw' ++ pending fw' = (flushed fw ++ pending fw) ++ more.
Proof.
  split; [vm_compute; reflexivity|].
  apply (after_create_session_keeps_events markdown_ex (Some session_ex)
           done_ex (Ok tt) done_again).
  vm_compute. reflexivity.
Defined.

Lemma no_session_no_step_lookup_witness :
  after_create_session markdown_ex None world_ex = (Ok tt, done_none) /\
  exists evs, log done_none = log world_ex ++ evs /\
              Forall (fun e => is_step_call e.1 = false) evs.
Proof.
  split; [vm_compute; reflexivity|].
  apply (no_session_no_step_lookup markdown_ex world_ex (Ok tt) done_none).
  vm_compute. reflexivity.
Defined.

Lemma existing_dir_no_makedirs_witness :
  is_directory (_output_dir (self done_ex)) (fs done_ex) = true /\
  after_create_session markdown_ex (Some session_ex) done_ex
    = (Ok tt, done_again) /\
  exists evs, log done_again = log done_ex ++ evs /\
              Forall (fun e => is_makedirs e.1 = false) evs.
Proof.
  split; [vm_compute; reflexivity|]. split; [vm_compute; reflexivity|].
  apply (existing_dir_no_makedirs markdown_ex (Some session_ex) done_ex
           (Ok tt) done_again);
    vm_compute; reflexivity.
Defined.

End HookMore.
